(** * OAuth2 scheme of @nuxtjs-alt/auth: a shallow embedding

    The development follows [runtime/schemes/oauth2.ts].  JavaScript values
    are a small tagged union, objects that are used as dictionaries are
    [gmap]s (the universal storage, the parsed query) or association lists
    (the authorization-request parameters, whose order reaches the URL), and
    the methods of the scheme are written in a state-and-exception monad over
    a record [World] that holds everything the scheme can touch, together
    with a log of the effects it performs on its collaborators. *)

From Stdlib Require Import ZArith QArith Qcanon String Ascii List Bool Lia.
From stdpp Require Import gmap strings list pretty.

Open Scope string_scope.
Open Scope list_scope.

(** ** JavaScript values *)

Inductive jsval : Type :=
| JUndefined
| JNull
| JBool (b : bool)
| JNum (z : Z)
| JStr (s : string).

#[global] Instance jsval_eq_dec : EqDecision jsval.
Proof. solve_decision. Defined.

(** [ToBoolean]: what [if (x)], [!x] and [x || y] test. *)
Definition truthy (v : jsval) : bool :=
  match v with
  | JUndefined | JNull => false
  | JBool b => b
  | JNum z => negb (Z.eqb z 0)
  | JStr s => negb (String.eqb s "")
  end.

(** [a || b] on values. *)
Definition js_or (a b : jsval) : jsval := if truthy a then a else b.

(** [a === b] on the values above. *)
Definition strict_eq (a b : jsval) : bool := bool_decide (a = b).

(** [o.s] where [o] holds an optional string. *)
Definition of_opt (o : option string) : jsval :=
  match o with Some s => JStr s | None => JUndefined end.

(** An object literal whose property order matters: [o\[k\] = v] keeps the
    position of an existing key and appends a new one. *)
Definition jsobj : Type := list (string * jsval).

Fixpoint obj_set (k : string) (v : jsval) (o : jsobj) : jsobj :=
  match o with
  | [] => [(k, v)]
  | (k', v') :: o' =>
      if String.eqb k k' then (k, v) :: o' else (k', v') :: obj_set k v o'
  end.

Fixpoint obj_get (k : string) (o : jsobj) : jsval :=
  match o with
  | [] => JUndefined
  | (k', v') :: o' => if String.eqb k k' then v' else obj_get k o'
  end.

Fixpoint obj_has (k : string) (o : jsobj) : bool :=
  match o with
  | [] => false
  | (k', _) :: o' => String.eqb k k' || obj_has k o'
  end.

(** [{ ...o, ...p }]: the properties of [p] are assigned in their order. *)
Definition obj_spread (o p : jsobj) : jsobj :=
  fold_left (fun acc kv => obj_set (fst kv) (snd kv) acc) p o.

(** ** Strings *)

(** [hay.includes(needle)] *)
Fixpoint includes (needle hay : string) : bool :=
  String.prefix needle hay ||
  match hay with
  | EmptyString => false
  | String _ hay' => includes needle hay'
  end.

(** [s.replace(/c/g, d)] for a single character [c]. *)
Fixpoint replace_all (c d : ascii) (s : string) : string :=
  match s with
  | EmptyString => EmptyString
  | String a s' => String (if Ascii.eqb a c then d else a) (replace_all c d s')
  end.

(** [s.replace(/c+$/, '')]: the longest run of [c] at the end is removed. *)
Fixpoint strip_trailing (c : ascii) (s : string) : string :=
  match s with
  | EmptyString => EmptyString
  | String a s' =>
      match strip_trailing c s' with
      | EmptyString => if Ascii.eqb a c then EmptyString else String a EmptyString
      | r => String a r
      end
  end.

(** [s.slice(-2)] *)
Definition slice_last2 (s : string) : string :=
  substring (String.length s - 2) 2 s.

(** [s.slice(1)] *)
Definition slice_from1 (s : string) : string :=
  match s with
  | EmptyString => EmptyString
  | String _ s' => s'
  end.

Fixpoint last_char (s : string) : option ascii :=
  match s with
  | EmptyString => None
  | String a EmptyString => Some a
  | String _ s' => last_char s'
  end.

Fixpoint contains_char (c : ascii) (s : string) : bool :=
  match s with
  | EmptyString => false
  | String a s' => Ascii.eqb a c || contains_char c s'
  end.

(** ** Numbers, bytes and their text encodings *)

Open Scope Z_scope.

Definition hex_alphabet : list ascii := list_ascii_of_string "0123456789abcdef".

Definition hex_digit (d : Z) : ascii := nth (Z.to_nat d) hex_alphabet "0"%char.

(** [n.toString(16)] for an integer [n >= 0]: lower-case digits, no leading
    zero.  A number below [2^k] has at most [k] digits, so the fuel given by
    [toString16] never runs out. *)
Fixpoint toString16_aux (fuel : nat) (n : Z) : string :=
  match fuel with
  | O => EmptyString
  | S fuel' =>
      if n <? 16 then String (hex_digit n) EmptyString
      else toString16_aux fuel' (n / 16) +:+ String (hex_digit (n mod 16)) EmptyString
  end.

Definition toString16 (n : Z) : string :=
  toString16_aux (S (Z.to_nat (Z.log2 n))) n.

(** A [Uint32Array] element stores its value modulo [2^32]. *)
Definition to_uint32 (z : Z) : Z := z mod 2 ^ 32.

(** A byte string as the list of its character codes; [TextEncoder.encode]
    on the strings of this model, which are sequences of bytes (an ASCII
    string is its own UTF-8 encoding). *)
Definition TextEncoder_encode (s : string) : list Z :=
  map (fun a => Z.of_nat (nat_of_ascii a)) (list_ascii_of_string s).

(** *** [btoa]: standard base64 with padding *)

Definition b64_alphabet : list ascii :=
  list_ascii_of_string "ABCDEFGHIJKLMNOPQRSTUVWXYZabcdefghijklmnopqrstuvwxyz0123456789+/".

Definition b64_char (i : Z) : ascii := nth (Z.to_nat i) b64_alphabet "A"%char.

Fixpoint btoa (bs : list Z) : string :=
  match bs with
  | [] => EmptyString
  | [a] =>
      String (b64_char (Z.shiftr a 2))
     (String (b64_char (Z.shiftl (Z.land a 3) 4))
     (String "="%char (String "="%char EmptyString)))
  | [a; b] =>
      String (b64_char (Z.shiftr a 2))
     (String (b64_char (Z.lor (Z.shiftl (Z.land a 3) 4) (Z.shiftr b 4)))
     (String (b64_char (Z.shiftl (Z.land b 15) 2))
     (String "="%char EmptyString)))
  | a :: b :: c :: rest =>
      String (b64_char (Z.shiftr a 2))
     (String (b64_char (Z.lor (Z.shiftl (Z.land a 3) 4) (Z.shiftr b 4)))
     (String (b64_char (Z.lor (Z.shiftl (Z.land b 15) 2) (Z.shiftr c 6)))
     (String (b64_char (Z.land c 63)) (btoa rest))))
  end.

(** *** SHA-256 (FIPS 180-4), the digest behind
    [window.crypto.subtle.digest('SHA-256', data)] *)

Module SHA256.

Definition w32 (x : Z) : Z := x mod 2 ^ 32.
Definition add32 (x y : Z) : Z := w32 (x + y).
Definition rotr (n x : Z) : Z := Z.lor (Z.shiftr x n) (w32 (Z.shiftl x (32 - n))).
Definition not32 (x : Z) : Z := 2 ^ 32 - 1 - x.

Definition Ch (x y z : Z) : Z := Z.lxor (Z.land x y) (Z.land (not32 x) z).
Definition Maj (x y z : Z) : Z := Z.lxor (Z.lxor (Z.land x y) (Z.land x z)) (Z.land y z).
Definition Sigma0 (x : Z) : Z := Z.lxor (Z.lxor (rotr 2 x) (rotr 13 x)) (rotr 22 x).
Definition Sigma1 (x : Z) : Z := Z.lxor (Z.lxor (rotr 6 x) (rotr 11 x)) (rotr 25 x).
Definition sigma0 (x : Z) : Z := Z.lxor (Z.lxor (rotr 7 x) (rotr 18 x)) (Z.shiftr x 3).
Definition sigma1 (x : Z) : Z := Z.lxor (Z.lxor (rotr 17 x) (rotr 19 x)) (Z.shiftr x 10).

(** The round constants: the first 32 bits of the fractional parts of the
    cube roots of the first 64 primes. *)
Definition K : list Z :=
  [ 1116352408; 1899447441; 3049323471; 3921009573; 961987163; 1508970993; 2453635748; 2870763221;
    3624381080; 310598401; 607225278; 1426881987; 1925078388; 2162078206; 2614888103; 3248222580;
    3835390401; 4022224774; 264347078; 604807628; 770255983; 1249150122; 1555081692; 1996064986;
    2554220882; 2821834349; 2952996808; 3210313671; 3336571891; 3584528711; 113926993; 338241895;
    666307205; 773529912; 1294757372; 1396182291; 1695183700; 1986661051; 2177026350; 2456956037;
    2730485921; 2820302411; 3259730800; 3345764771; 3516065817; 3600352804; 4094571909; 275423344;
    430227734; 506948616; 659060556; 883997877; 958139571; 1322822218; 1537002063; 1747873779;
    1955562222; 2024104815; 2227730452; 2361852424; 2428436474; 2756734187; 3204031479; 3329325298 ].

(** Padding: a [1] bit, zeros up to 56 modulo 64, the bit length on 8 bytes. *)
Definition be_bytes (n : nat) (x : Z) : list Z :=
  map (fun i => Z.shiftr x (8 * Z.of_nat (n - 1 - i)) mod 256) (seq 0 n).

Definition pad (msg : list Z) : list Z :=
  let len := Z.of_nat (length msg) in
  let zeros := Z.to_nat ((55 - len) mod 64) in
  msg ++ [128] ++ repeat 0 zeros ++ be_bytes 8 (8 * len).

Fixpoint be_word (bs : list Z) : Z :=
  match bs with
  | [] => 0
  | b :: bs' => Z.shiftl b (8 * Z.of_nat (length bs')) + be_word bs'
  end.

Fixpoint chunks (k n : nat) (bs : list Z) : list (list Z) :=
  match n with
  | O => []
  | S n' => firstn k bs :: chunks k n' (skipn k bs)
  end.

(** The message schedule: sixteen words of the block, then 48 derived ones. *)
Definition schedule_step (w : list Z) (t : nat) : list Z :=
  let at_ i := nth (t - i) w 0 in
  w ++ [add32 (add32 (sigma1 (at_ 2%nat)) (at_ 7%nat))
              (add32 (sigma0 (at_ 15%nat)) (at_ 16%nat))].

Definition schedule (block : list Z) : list Z :=
  fold_left schedule_step (seq 16 48) (map be_word (chunks 4 16 block)).

Record regs : Type :=
  Regs { ra : Z; rb : Z; rc : Z; rd : Z; re : Z; rf : Z; rg : Z; rh : Z }.

Definition round (r : regs) (kw : Z * Z) : regs :=
  let t1 := add32 (add32 (add32 (rh r) (Sigma1 (re r))) (Ch (re r) (rf r) (rg r)))
                  (add32 (fst kw) (snd kw)) in
  let t2 := add32 (Sigma0 (ra r)) (Maj (ra r) (rb r) (rc r)) in
  Regs (add32 t1 t2) (ra r) (rb r) (rc r) (add32 (rd r) t1) (re r) (rf r) (rg r).

Definition compress (h : regs) (block : list Z) : regs :=
  let r := fold_left round (combine K (schedule block)) h in
  Regs (add32 (ra h) (ra r)) (add32 (rb h) (rb r)) (add32 (rc h) (rc r))
       (add32 (rd h) (rd r)) (add32 (re h) (re r)) (add32 (rf h) (rf r))
       (add32 (rg h) (rg r)) (add32 (rh h) (rh r)).

(** The initial hash value: the same of the square roots of the first 8
    primes. *)
Definition initial : regs :=
  Regs 1779033703 3144134277 1013904242 2773480762 1359893119 2600822924 528734635 1541459225.

Definition digest (msg : list Z) : list Z :=
  let padded := pad msg in
  let r := fold_left compress (chunks 64 (length padded / 64)%nat padded) initial in
  concat (map (be_bytes 4) [ra r; rb r; rc r; rd r; re r; rf r; rg r; rh r]).

End SHA256.

Close Scope Z_scope.

(** ** Configuration and environment *)

(** [options.scope] is a string or an array of strings. *)
Inductive ScopeOption : Type :=
| ScopeArray (l : list string)
| ScopeString (s : string).

(** [Oauth2SchemeOptions].  Options that the code tests with [if (...)] or
    copies into the request parameters are values, since [DEFAULTS] leaves
    most of them [undefined]. *)
Record Oauth2SchemeOptions : Type := {
  name : string;
  responseType : jsval;
  accessType : jsval;
  clientId : jsval;
  redirectUri : jsval;
  scope_option : ScopeOption;
  codeChallengeMethod : jsval;
  clientWindow : jsval;
  clientWindowWidth : jsval;
  clientWindowHeight : jsval;
  organization : jsval;
  audience : jsval;
  responseMode : jsval;
  acrValues : jsval;
  grantType : jsval;
  autoLogout : bool;
  endpoints_authorization : string;
  endpoints_token : string;
  token_property : string;
  token_type : string;
  token_maxAge : Z;
  refreshToken_property : string;
  refreshToken_maxAge : Z
}.

(** The part of [$auth.options] the scheme reads: [redirect] is [false] or
    an object with a [callback] path. *)
Record AuthOptions : Type := {
  redirect_callback : option string;
  watchLoggedIn : bool
}.

(** [useRoute()] *)
Record Route : Type := {
  path : string;
  hash : string;
  query : gmap string jsval
}.

(** An outgoing HTTP request as the scheme hands it to [$auth.request]; the
    body is the object given to [URLSearchParams]. *)
Record Request : Type := {
  method : string;
  url : string;
  baseURL : string;
  headers : jsobj;
  body : jsobj
}.

Inductive HttpOutcome : Type :=
| HttpOk (response : jsobj)
| HttpFail (error : string).

(** The popup reference [#clientWindowReference : Window | undefined | null];
    a window carries its [closed] flag. *)
Inductive WindowRef : Type :=
| RefUndefined
| RefNull
| RefWindow (closed : bool).

(** The browser and the helper modules, as far as the scheme calls them.
    They are outside the scheme, so they are parameters of every method. *)
Record Platform : Type := {
  process_server : bool;
  crypto_random : nat -> Z;
  randomString : nat -> nat -> string;
  http : Request -> HttpOutcome;
  normalizePath : string -> string;
  parseQuery : string -> gmap string jsval;
  encodeQuery : jsobj -> string;
  encodeURIComponent : string -> string;
  requrl_join : string;
  decodeExpiry : string -> option Z;
  window_opener : bool;
  popup_blocked : bool;
  outerHeight : Z;
  outerWidth : Z;
  screenX : Z;
  screenY : Z
}.

(** One scheme instance: what [this] gives access to and never changes. *)
Record Scheme : Type := {
  options : Oauth2SchemeOptions;
  auth_options : AuthOptions;
  useRoute : Route;
  platform : Platform
}.

(** ** The mutable world and the effects log *)

Inductive Error : Type :=
| TypeError (msg : string)
| ExpiredAuthSessionError
| RequestError (error : string).

Record WindowFeatures : Type := {
  wf_width : jsval;
  wf_height : jsval;
  wf_top : option Qc;
  wf_left : option Qc
}.

(** Every call the scheme makes on a collaborator leaves an event. *)
Inductive Event : Type :=
| EvRequest (r : Request)
| EvAuthReset
| EvSetUser (u : jsval)
| EvTokenSet (v : jsval)
| EvTokenReset
| EvRefreshTokenSet (v : jsval)
| EvRefreshTokenReset
| EvClearHeader
| EvRequestHandlerReset
| EvCallOnError (e : Error) (method_ : string)
| EvRedirect (target : string)
| EvLocationReplace (url_ : string)
| EvWindowOpen (url_ : string) (target : string) (features : WindowFeatures)
| EvWindowFocus
| EvAddEventListener
| EvRemoveEventListener
| EvSetInterval
| EvClearInterval
| EvPostMessage
| EvWindowClose.

(** A token store (spec 4.1): the value and its expiry in memory and in the
    persistence layer.  The persisted copy is kept here and not in
    [storage]: the keys of the token stores, built from their own
    configurable prefixes, are taken to be apart from the keys the scheme
    itself reads and writes. *)
Record TokenStore : Type := {
  value : option string;
  expiresAt : option Z;
  persisted_value : option string;
  persisted_expiresAt : option Z
}.

Record World : Type := {
  storage : gmap string jsval;
  token : TokenStore;
  refreshToken : TokenStore;
  user : jsval;
  authorization_header : option string;
  clientWindowReference : WindowRef;
  strategy : string;
  crypto_cursor : nat;
  random_cursor : nat;
  now : Z;
  trace : list Event
}.

Definition with_storage (f : gmap string jsval -> gmap string jsval) (w : World) : World :=
  {| storage := f (storage w); token := token w; refreshToken := refreshToken w;
     user := user w; authorization_header := authorization_header w;
     clientWindowReference := clientWindowReference w; strategy := strategy w;
     crypto_cursor := crypto_cursor w; random_cursor := random_cursor w;
     now := now w; trace := trace w |}.

Definition with_token (f : TokenStore -> TokenStore) (w : World) : World :=
  {| storage := storage w; token := f (token w); refreshToken := refreshToken w;
     user := user w; authorization_header := authorization_header w;
     clientWindowReference := clientWindowReference w; strategy := strategy w;
     crypto_cursor := crypto_cursor w; random_cursor := random_cursor w;
     now := now w; trace := trace w |}.

Definition with_refreshToken (f : TokenStore -> TokenStore) (w : World) : World :=
  {| storage := storage w; token := token w; refreshToken := f (refreshToken w);
     user := user w; authorization_header := authorization_header w;
     clientWindowReference := clientWindowReference w; strategy := strategy w;
     crypto_cursor := crypto_cursor w; random_cursor := random_cursor w;
     now := now w; trace := trace w |}.

Definition with_user (u : jsval) (w : World) : World :=
  {| storage := storage w; token := token w; refreshToken := refreshToken w;
     user := u; authorization_header := authorization_header w;
     clientWindowReference := clientWindowReference w; strategy := strategy w;
     crypto_cursor := crypto_cursor w; random_cursor := random_cursor w;
     now := now w; trace := trace w |}.

Definition with_header (h : option string) (w : World) : World :=
  {| storage := storage w; token := token w; refreshToken := refreshToken w;
     user := user w; authorization_header := h;
     clientWindowReference := clientWindowReference w; strategy := strategy w;
     crypto_cursor := crypto_cursor w; random_cursor := random_cursor w;
     now := now w; trace := trace w |}.

Definition with_clientWindowReference (r : WindowRef) (w : World) : World :=
  {| storage := storage w; token := token w; refreshToken := refreshToken w;
     user := user w; authorization_header := authorization_header w;
     clientWindowReference := r; strategy := strategy w;
     crypto_cursor := crypto_cursor w; random_cursor := random_cursor w;
     now := now w; trace := trace w |}.

Definition with_crypto_cursor (n : nat) (w : World) : World :=
  {| storage := storage w; token := token w; refreshToken := refreshToken w;
     user := user w; authorization_header := authorization_header w;
     clientWindowReference := clientWindowReference w; strategy := strategy w;
     crypto_cursor := n; random_cursor := random_cursor w;
     now := now w; trace := trace w |}.

Definition with_random_cursor (n : nat) (w : World) : World :=
  {| storage := storage w; token := token w; refreshToken := refreshToken w;
     user := user w; authorization_header := authorization_header w;
     clientWindowReference := clientWindowReference w; strategy := strategy w;
     crypto_cursor := crypto_cursor w; random_cursor := n;
     now := now w; trace := trace w |}.

Definition with_trace (f : list Event -> list Event) (w : World) : World :=
  {| storage := storage w; token := token w; refreshToken := refreshToken w;
     user := user w; authorization_header := authorization_header w;
     clientWindowReference := clientWindowReference w; strategy := strategy w;
     crypto_cursor := crypto_cursor w; random_cursor := random_cursor w;
     now := now w; trace := f (trace w) |}.

(** ** The monad of scheme methods: state, and exceptions that keep the
    state reached when they were thrown *)

Inductive Outcome (A : Type) : Type :=
| Returned (a : A)
| Thrown (e : Error).
Arguments Returned {A} a.
Arguments Thrown {A} e.

Definition M (A : Type) : Type := World -> Outcome A * World.

#[global] Instance M_ret : MRet M := fun A a w => (Returned a, w).

#[global] Instance M_bind : MBind M := fun A B f m w =>
  match m w with
  | (Returned a, w') => f a w'
  | (Thrown e, w') => (Thrown e, w')
  end.

Definition throw {A : Type} (e : Error) : M A := fun w => (Thrown e, w).

Definition gets {A : Type} (f : World -> A) : M A := fun w => (Returned (f w), w).

Definition modify (f : World -> World) : M unit := fun w => (Returned tt, f w).

(** Events are appended, so the log reads in execution order. *)
Definition emit (e : Event) : M unit := modify (with_trace (fun t => (t ++ [e])%list)).

(** [p.catch(h)] / [try { m } catch (e) { h e }] *)
Definition catch {A : Type} (m : M A) (h : Error -> M A) : M A := fun w =>
  match m w with
  | (Returned a, w') => (Returned a, w')
  | (Thrown e, w') => h e w'
  end.

Definition when (b : bool) (m : M unit) : M unit := if b then m else mret tt.

(** ** Collaborators of the scheme

    [Token], [RefreshToken], [RequestHandler], the storage and the [$auth]
    core live in [runtime/inc] and [runtime/core], outside the files at hand;
    they are modelled from their contracts in the specification. *)

Section Collaborators.

Variable this : Scheme.

(** Modelled from the spec: the storage collaborator, [getUniversal(key)] on
    a key-to-value mapping; a key without a value reads as [undefined]. *)
Definition getUniversal (key : string) : M jsval :=
  gets (fun w => default JUndefined (storage w !! key)).

(** Modelled from the spec: [setUniversal(key, value|null)]; storing [null]
    (or [undefined]) deletes the key. *)
Definition setUniversal (key : string) (v : jsval) : M unit :=
  match v with
  | JUndefined | JNull => modify (with_storage (delete key))
  | _ => modify (with_storage (insert key v))
  end.

(** Modelled from the spec: [removeTokenPrefix], "strips any scheme prefix":
    the token type followed by a space. *)
Definition removeTokenPrefix (tokenValue tokenType : string) : string :=
  if String.eqb tokenType "" then tokenValue
  else if String.prefix (tokenType +:+ " ") tokenValue
       then substring (String.length tokenType + 1)
                      (String.length tokenValue - (String.length tokenType + 1)) tokenValue
       else tokenValue.

(** Modelled from the spec: the value a store keeps for [set(raw)].  "A
    Token with no value is considered absent, never an empty-string
    sentinel": anything but a non-empty string leaves the store empty. *)
Definition stored_value (raw : jsval) : option string :=
  match raw with
  | JStr s => if String.eqb s "" then None
              else Some (removeTokenPrefix s (token_type (options this)))
  | _ => None
  end.

(** Modelled from the spec: the expiry computed by [set]: decoded from a
    self-describing token, else now + max-age. *)
Definition computed_expiry (maxAge : Z) (t : Z) (v : option string) : option Z :=
  match v with
  | Some s => Some (default (t + maxAge)%Z (decodeExpiry (platform this) s))
  | None => None
  end.

(** Modelled from the spec: [set] writes value and expiry through to the
    persistence layer and to memory. *)
Definition store_set (maxAge : Z) (t : Z) (raw : jsval) (_ : TokenStore) : TokenStore :=
  let v := stored_value raw in
  let e := computed_expiry maxAge t v in
  {| value := v; expiresAt := e; persisted_value := v; persisted_expiresAt := e |}.

(** Modelled from the spec: [reset] clears value and expiry in memory and in
    persistence. *)
Definition store_reset (_ : TokenStore) : TokenStore :=
  {| value := None; expiresAt := None; persisted_value := None; persisted_expiresAt := None |}.

(** Modelled from the spec: [sync] reconciles memory with the persistence
    layer, which another tab may have changed. *)
Definition store_sync (s : TokenStore) : TokenStore :=
  {| value := persisted_value s; expiresAt := persisted_expiresAt s;
     persisted_value := persisted_value s; persisted_expiresAt := persisted_expiresAt s |}.

(** Modelled from the spec: [status().expired()]: false before the expiry
    and true from it on; a store without value or expiry is not expired. *)
Definition store_expired (t : Z) (s : TokenStore) : bool :=
  match value s, expiresAt s with
  | Some _, Some e => (e <=? t)%Z
  | _, _ => false
  end.

(** Modelled from the spec: the methods of [this.token] and
    [this.refreshToken] on the world; [set] and [reset] leave an event. *)
Definition Token_sync : M jsval :=
  modify (with_token store_sync);;
  gets (fun w => of_opt (value (token w))).

Definition Token_get : M jsval := gets (fun w => of_opt (value (token w))).

Definition Token_set (raw : jsval) : M unit :=
  emit (EvTokenSet raw);;
  modify (fun w => with_token (store_set (token_maxAge (options this)) (now w) raw) w).

Definition Token_reset : M unit :=
  emit EvTokenReset;; modify (with_token store_reset).

Definition Token_status_expired : M bool :=
  gets (fun w => store_expired (now w) (token w)).

Definition RefreshToken_sync : M jsval :=
  modify (with_refreshToken store_sync);;
  gets (fun w => of_opt (value (refreshToken w))).

Definition RefreshToken_get : M jsval := gets (fun w => of_opt (value (refreshToken w))).

Definition RefreshToken_set (raw : jsval) : M unit :=
  emit (EvRefreshTokenSet raw);;
  modify (fun w => with_refreshToken (store_set (refreshToken_maxAge (options this)) (now w) raw) w).

Definition RefreshToken_reset : M unit :=
  emit EvRefreshTokenReset;; modify (with_refreshToken store_reset).

Definition RefreshToken_status_expired : M bool :=
  gets (fun w => store_expired (now w) (refreshToken w)).

(** Modelled from the spec: the request handler's authorization header. *)
Definition RequestHandler_clearHeader : M unit :=
  emit EvClearHeader;; modify (with_header None).

Definition RequestHandler_reset : M unit :=
  emit EvRequestHandlerReset;; modify (with_header None).

(** Modelled from the spec: [$auth.setUser]. *)
Definition auth_setUser (u : jsval) : M unit :=
  emit (EvSetUser u);; modify (with_user u).

(** Modelled from the spec: [$auth.request], the HTTP collaborator: "returns
    a structured response or fails with a transport/status error". *)
Definition auth_request (r : Request) : M jsobj :=
  emit (EvRequest r);;
  match http (platform this) r with
  | HttpOk response => mret response
  | HttpFail error => throw (RequestError error)
  end.

(** Modelled from the spec: [$auth.callOnError] and [$auth.redirect], seen
    through the events they leave. *)
Definition auth_callOnError (e : Error) (method_ : string) : M unit :=
  emit (EvCallOnError e method_).

Definition auth_redirect (target : string) : M unit := emit (EvRedirect target).

(** Modelled from the spec: [getProp] reads a field of the response by its
    configured name. *)
Definition getProp (holder : jsobj) (propName : string) : jsval := obj_get propName holder.

(** [utils.randomString(length)] *)
Definition util_randomString (len : nat) : M jsval :=
  c ← gets random_cursor;
  modify (with_random_cursor (c + len));;
  mret (JStr (randomString (platform this) len c)).

(** [window.crypto.getRandomValues(new Uint32Array(n))] *)
Definition getRandomValues (n : nat) : M (list Z) :=
  c ← gets crypto_cursor;
  modify (with_crypto_cursor (c + n));;
  mret (map (fun i => to_uint32 (crypto_random (platform this) (c + i))) (seq 0 n)).

End Collaborators.

(** ** The scheme: [class Oauth2Scheme] *)

(** [SchemeCheck], the result of [check]. *)
Record SchemeCheck : Type := {
  valid : bool;
  tokenExpired : bool;
  refreshTokenExpired : bool;
  isRefreshable : bool
}.

Definition set_valid (b : bool) (r : SchemeCheck) : SchemeCheck :=
  {| valid := b; tokenExpired := tokenExpired r;
     refreshTokenExpired := refreshTokenExpired r; isRefreshable := isRefreshable r |}.

Definition set_tokenExpired (b : bool) (r : SchemeCheck) : SchemeCheck :=
  {| valid := valid r; tokenExpired := b;
     refreshTokenExpired := refreshTokenExpired r; isRefreshable := isRefreshable r |}.

Definition set_refreshTokenExpired (b : bool) (r : SchemeCheck) : SchemeCheck :=
  {| valid := valid r; tokenExpired := tokenExpired r;
     refreshTokenExpired := b; isRefreshable := isRefreshable r |}.

(** The argument [$opts] of [login]. *)
Record LoginOptions : Type := {
  login_state : jsval;
  login_params : jsobj;
  login_nonce : jsval
}.

(** [v.length] for a value that is not [null] or [undefined]. *)
Definition js_length (v : jsval) : jsval :=
  match v with
  | JStr s => JNum (Z.of_nat (String.length s))
  | _ => JUndefined
  end.

Module Oauth2Scheme.
Section Methods.

Variable this : Scheme.

Let opts_ := options this.

(** [get scope()] *)
Definition scope : string :=
  match scope_option opts_ with
  | ScopeArray l => String.concat " " l
  | ScopeString s => s
  end.

(** [get redirectURI()]: the configured URI, else the one joined from the
    request URL and the callback path. *)
Definition redirectURI : jsval :=
  js_or (redirectUri opts_) (JStr (requrl_join (platform this))).

(** [check(checkStatus = false)] *)
Definition check (checkStatus : bool) : M SchemeCheck :=
  let response :=
    {| valid := false; tokenExpired := false;
       refreshTokenExpired := false; isRefreshable := true |} in
  (* Sync tokens *)
  token ← Token_sync;
  RefreshToken_sync;;
  (* Token is required but not available *)
  if negb (truthy token) then mret response
  (* Check status wasn't enabled, let it pass *)
  else if negb checkStatus then mret (set_valid true response)
  else
    (* Get status *)
    tokenStatus_expired ← Token_status_expired;
    refreshTokenStatus_expired ← RefreshToken_status_expired;
    (* Refresh token has expired. There is no way to refresh. Force reset. *)
    if (refreshTokenStatus_expired : bool) then mret (set_refreshTokenExpired true response)
    (* Token has expired, Force reset. *)
    else if (tokenStatus_expired : bool) then mret (set_tokenExpired true response)
    else mret (set_valid true response).

(** [reset()] *)
Definition reset : M unit :=
  auth_setUser (JBool false);;
  Token_reset;;
  RefreshToken_reset;;
  RequestHandler_reset.

(** Modelled from the spec: [$auth.reset()], "the universal recovery
    action: clears user, token, refresh token, and interceptor header
    state", which is what the scheme's own [reset] does. *)
Definition auth_reset : M unit := emit EvAuthReset;; reset.

(** [#sha256(plain)] *)
Definition sha256 (plain : string) : list Z :=
  let data := TextEncoder_encode plain in
  SHA256.digest data.

(** [#base64UrlEncode(str)] *)
Definition base64UrlEncode (str : list Z) : string :=
  strip_trailing "="%char
    (replace_all "/"%char "_"%char
      (replace_all "+"%char "-"%char (btoa str))).

(** [pkceChallengeFromVerifier(v, hashValue)] *)
Definition pkceChallengeFromVerifier (v : string) (hashValue : bool) : string :=
  if hashValue then
    let hashed := sha256 v in
    base64UrlEncode hashed
  else v (* plain is plain - url-encoded by default *).

(** The callback of [Array.from(array, ...)] in [generateRandomString]. *)
Definition hex_of_element (dec : Z) : string :=
  slice_last2 ("0" +:+ toString16 dec).

(** [generateRandomString()] *)
Definition generateRandomString : M string :=
  array ← getRandomValues this 28;
  mret (String.concat "" (map hex_of_element array)).

(** [clientWindowFeatures(window, clientWindowWidth, clientWindowHeight)];
    a dimension that is not a number makes the coordinate [NaN] ([None]). *)
Definition clientWindowFeatures (clientWindowWidth clientWindowHeight : jsval) : WindowFeatures :=
  let centre (outer pos : Z) (size : jsval) : option Qc :=
    match size with
    | JNum n => Some (Q2Qc (inject_Z outer / 2 + inject_Z pos - inject_Z n / 2))
    | _ => None
    end in
  {| wf_width := clientWindowWidth;
     wf_height := clientWindowHeight;
     wf_top := centre (outerHeight (platform this)) (screenY (platform this)) clientWindowHeight;
     wf_left := centre (outerWidth (platform this)) (screenX (platform this)) clientWindowWidth |}.

(** [updateTokens(response)] *)
Definition updateTokens (response : jsobj) : M unit :=
  let token := getProp response (token_property opts_) in
  let refreshToken := getProp response (refreshToken_property opts_) in
  Token_set this token;;
  when (truthy refreshToken) (RefreshToken_set this refreshToken).

(** The request [refreshTokens] posts to the token endpoint. *)
Definition refresh_request (refreshToken : jsval) : Request :=
  {| method := "post";
     url := endpoints_token opts_;
     baseURL := "";
     headers := [("Content-Type", JStr "application/x-www-form-urlencoded")];
     body :=
       [("refresh_token",
          match refreshToken with
          | JStr s => JStr (removeTokenPrefix s (token_type opts_))
          | v => v
          end);
        ("scopes", JStr scope);
        ("client_id", clientId opts_);
        ("grant_type", JStr "refresh_token")] |}.

(** [refreshTokens()] *)
Definition refreshTokens : M (option jsobj) :=
  (* Get refresh token *)
  refreshToken ← RefreshToken_get;
  (* Refresh token is required but not available *)
  if negb (truthy refreshToken) then mret None
  else
    (* Get refresh token status *)
    refreshTokenStatus_expired ← RefreshToken_status_expired;
    (* Refresh token is expired. There is no way to refresh. Force reset. *)
    if (refreshTokenStatus_expired : bool) then
      auth_reset;;
      throw ExpiredAuthSessionError
    else
      (* Delete current token from the request header before refreshing *)
      RequestHandler_clearHeader;;
      response ← catch (auth_request this (refresh_request refreshToken))
                       (fun error =>
                          auth_callOnError error "refreshToken";;
                          throw error);
      updateTokens response;;
      mret (Some response).

(** The code-for-token request of [#handleCallback]. *)
Definition exchange_request (code codeVerifier : jsval) : Request :=
  {| method := "post";
     url := endpoints_token opts_;
     baseURL := "";
     headers := [];
     body :=
       [("code", code);
        ("client_id", clientId opts_);
        ("redirect_uri", redirectURI);
        ("response_type", responseType opts_);
        ("audience", audience opts_);
        ("grant_type", grantType opts_);
        ("code_verifier", codeVerifier)] |}.

(** [#handleCallback()]; the result is [true] when a redirect happened and
    [undefined] otherwise. *)
Definition handleCallback : M jsval :=
  let route := useRoute this in
  (* Handle callback only for specified route *)
  if match redirect_callback (auth_options this) with
     | Some callback =>
         negb (String.eqb (normalizePath (platform this) (path route))
                          (normalizePath (platform this) callback))
     | None => false
     end
  then mret JUndefined
  (* Callback flow is not supported in server side *)
  else if process_server (platform this) then mret JUndefined
  else
    let hash_ := parseQuery (platform this) (slice_from1 (hash route)) in
    let parsedQuery : gmap string jsval := hash_ ∪ query route in
    let field (k : string) : jsval := default JUndefined (parsedQuery !! k) in
    (* accessToken/idToken *)
    let token := field (token_property opts_) in
    (* refresh token *)
    let refreshToken :=
      if negb (String.eqb (refreshToken_property opts_) "")
      then field (refreshToken_property opts_) else JUndefined in
    (* Validate state *)
    state ← getUniversal (name opts_ +:+ ".state");
    setUniversal (name opts_ +:+ ".state") JNull;;
    if truthy state && negb (strict_eq (field "state") state) then mret JUndefined
    else
      (* -- Authorization Code Grant -- *)
      tokens ←
        (if strict_eq (responseType opts_) (JStr "code") && truthy (field "code") then
           (* Retrieve code verifier and remove it from storage *)
           codeVerifier ←
             (if truthy (codeChallengeMethod opts_)
                 && negb (strict_eq (codeChallengeMethod opts_) (JStr "implicit"))
              then
                v ← getUniversal (name opts_ +:+ ".pkce_code_verifier");
                setUniversal (name opts_ +:+ ".pkce_code_verifier") JNull;;
                mret v
              else mret JUndefined);
           response ← auth_request this (exchange_request (field "code") codeVerifier);
           mret (js_or (getProp response (token_property opts_)) token,
                 js_or (getProp response (refreshToken_property opts_)) refreshToken)
         else mret (token, refreshToken));
      let token := fst tokens in
      let refreshToken := snd tokens in
      if negb (truthy token) || negb (truthy (js_length token)) then mret JUndefined
      else
        (* Set token *)
        Token_set this token;;
        (* Store refresh token *)
        when (truthy refreshToken && truthy (js_length refreshToken))
             (RefreshToken_set this refreshToken);;
        if truthy (clientWindow opts_) then
          when (window_opener (platform this))
               (emit EvPostMessage;; emit EvWindowClose);;
          mret JUndefined
        (* Redirect to home *)
        else if watchLoggedIn (auth_options this) then
          auth_redirect "home";;
          mret (JBool true) (* True means a redirect happened *)
        else mret JUndefined.

(** [if (v) { opts[k] = v }] *)
Definition set_if_configured (k : string) (v : jsval) (opts : jsobj) : jsobj :=
  if truthy v then obj_set k v opts else opts.

(** [login($opts)], first half: the authorization-request parameter set
    [opts], an object whose property order is the order of the query
    string. *)
Definition request_parameters (_opts : LoginOptions) : M jsobj :=
  state ← (if truthy (login_state _opts) then mret (login_state _opts)
           else util_randomString this 10);
  let opts : jsobj :=
    obj_spread
      [("protocol", JStr "oauth2");
       ("response_type", responseType opts_);
       ("access_type", accessType opts_);
       ("client_id", clientId opts_);
       ("redirect_uri", redirectURI);
       ("scope", JStr scope);
       (* Note: The primary reason for using the state parameter is to
          mitigate CSRF attacks. *)
       ("state", state);
       ("code_challenge_method", codeChallengeMethod opts_);
       ("clientWindow", clientWindow opts_);
       ("clientWindowWidth", clientWindowWidth opts_);
       ("clientWindowHeight", clientWindowHeight opts_)]
      (login_params _opts) in
  let opts := set_if_configured "organization" (organization opts_) opts in
  let opts := set_if_configured "audience" (audience opts_) opts in
  (* Set Nonce Value if response_type contains id_token to mitigate Replay
     Attacks.  Keycloak uses nonce for token as well, so support that too *)
  wants_nonce ←
    match obj_get "response_type" opts with
    | JStr response_type =>
        mret (includes "token" response_type || includes "id_token" response_type)
    | _ => throw (TypeError "opts.response_type.includes")
    end;
  opts ←
    (if (wants_nonce : bool) then
       nonce ← (if truthy (login_nonce _opts) then mret (login_nonce _opts)
                else util_randomString this 10);
       mret (obj_set "nonce" nonce opts)
     else mret opts);
  opts ←
    (let code_challenge_method := obj_get "code_challenge_method" opts in
     if truthy code_challenge_method
        && (strict_eq code_challenge_method (JStr "plain")
            || strict_eq code_challenge_method (JStr "S256"))
     then
       state ← generateRandomString;
       setUniversal (name opts_ +:+ ".pkce_state") (JStr state);;
       codeVerifier ← generateRandomString;
       setUniversal (name opts_ +:+ ".pkce_code_verifier") (JStr codeVerifier);;
       let codeChallenge :=
         pkceChallengeFromVerifier codeVerifier
           (strict_eq code_challenge_method (JStr "S256")) in
       mret (obj_set "code_challenge"
               (JStr (encodeURIComponent (platform this) codeChallenge)) opts)
     else mret opts);
  let opts := set_if_configured "response_mode" (responseMode opts_) opts in
  let opts := set_if_configured "acr_values" (acrValues opts_) opts in
  mret opts.

(** [login($opts)] *)
Definition login (_opts : LoginOptions) : M unit :=
  opts ← request_parameters _opts;
  setUniversal (name opts_ +:+ ".state") (obj_get "state" opts);;
  let url := endpoints_authorization opts_ +:+ "?" +:+ encodeQuery (platform this) opts in
  if truthy (obj_get "clientWindow" opts) then
    reference ← gets clientWindowReference;
    (* this.#clientWindowReference === null || this.#clientWindowReference!.closed *)
    null_or_closed ←
      match reference with
      | RefNull => mret true
      | RefWindow closed => mret closed
      | RefUndefined =>
          throw (TypeError "Cannot read properties of undefined (reading 'closed')")
      end;
    if (null_or_closed : bool) then
      (* Window features to center popup in middle of parent window *)
      let windowFeatures :=
        clientWindowFeatures (obj_get "clientWindowWidth" opts)
                             (obj_get "clientWindowHeight" opts) in
      emit (EvWindowOpen url "oauth2-client-window" windowFeatures);;
      modify (with_clientWindowReference
                (if popup_blocked (platform this) then RefNull else RefWindow false));;
      (* setting listener to know about approval from oauth provider *)
      emit EvAddEventListener;;
      (* watching pop up window and clearing listener when it closes or is
         being used by a different provider *)
      emit EvSetInterval
    else emit EvWindowFocus
  else emit (EvLocationReplace url).

(** The callback given to [setInterval] in [login]; [strategy_then] is the
    strategy captured when the popup was opened. *)
Definition checkPopUpInterval (strategy_then : string) : M unit :=
  reference ← gets clientWindowReference;
  strategy_now ← gets strategy;
  closed ←
    match reference with
    | RefWindow closed => mret closed
    | RefNull => throw (TypeError "Cannot read properties of null (reading 'closed')")
    | RefUndefined =>
        throw (TypeError "Cannot read properties of undefined (reading 'closed')")
    end;
  when ((closed : bool) || negb (String.eqb strategy_then strategy_now))
       (emit EvRemoveEventListener;;
        modify (with_clientWindowReference RefNull);;
        emit EvClearInterval).

End Methods.
End Oauth2Scheme.

(** ** Reading the effects log *)

(** The requests sent, in order. *)
Fixpoint requests_of (t : list Event) : list Request :=
  match t with
  | [] => []
  | EvRequest r :: t' => r :: requests_of t'
  | _ :: t' => requests_of t'
  end.

(** The values given to [token.set], in order. *)
Fixpoint tokens_set (t : list Event) : list jsval :=
  match t with
  | [] => []
  | EvTokenSet v :: t' => v :: tokens_set t'
  | _ :: t' => tokens_set t'
  end.

(** The values given to [refreshToken.set], in order. *)
Fixpoint refresh_tokens_set (t : list Event) : list jsval :=
  match t with
  | [] => []
  | EvRefreshTokenSet v :: t' => v :: refresh_tokens_set t'
  | _ :: t' => refresh_tokens_set t'
  end.

(** ** The refresh controller

    [RefreshController] is imported from [runtime/inc]; its contract is
    section 4.4 of the specification.  JavaScript runs one task at a time and
    an [async] method gives control back only at an [await], so a run of the
    system is a sequence of atomic steps: a caller asks for a refresh, the
    token endpoint answers the request [refreshTokens] is waiting for, or the
    completion callback of the pending operation runs. *)

Module RefreshController.

(** What a caller sees once the promise it holds is settled. *)
Inductive Settlement : Type :=
| Fulfilled (response : option jsobj)
| Rejected (e : Error).

(** Where the operation in flight stands: suspended at the [await] of the
    token request, or finished with its completion callback still queued. *)
Inductive Phase : Type :=
| AwaitingResponse (r : Request)
| Finishing (s : Settlement).

Record State : Type := {
  world : World;
  (** the in-flight marker: the pending operation, if any *)
  inflight : option (nat * Phase);
  (** operations started so far; the next one gets this number *)
  started : nat;
  (** the settled operations and their outcomes *)
  settled : gmap nat Settlement;
  (** for each call of [handleRefresh], most recent first, the caller and
      the operation whose promise it was handed *)
  handed : list (nat * nat)
}.

Section Controller.

Variable this : Scheme.

(** [refreshTokens] up to its [await]: the request it sent, or [None] when
    it returned before sending one. *)
Definition refreshTokens_begin : M (option Request) :=
  refreshToken ← RefreshToken_get;
  if negb (truthy refreshToken) then mret None
  else
    refreshTokenStatus_expired ← RefreshToken_status_expired;
    if (refreshTokenStatus_expired : bool) then
      Oauth2Scheme.auth_reset;;
      throw ExpiredAuthSessionError
    else
      RequestHandler_clearHeader;;
      emit (EvRequest (Oauth2Scheme.refresh_request this refreshToken));;
      mret (Some (Oauth2Scheme.refresh_request this refreshToken)).

(** [refreshTokens] from the answer of the token endpoint on. *)
Definition refreshTokens_resume (answer : HttpOutcome) : M (option jsobj) :=
  match answer with
  | HttpOk response =>
      Oauth2Scheme.updateTokens this response;;
      mret (Some response)
  | HttpFail error =>
      auth_callOnError (RequestError error) "refreshToken";;
      throw (RequestError error)
  end.

Definition settlement {A : Type} (f : A -> option jsobj) (o : Outcome A) : Settlement :=
  match o with
  | Returned a => Fulfilled (f a)
  | Thrown e => Rejected e
  end.

(** Modelled from the spec: [handleRefresh()], "when a refresh is requested
    while one is already running, return the pending result rather than
    issuing a second request"; otherwise the marker is set and
    [refreshTokens] starts. *)
Definition handleRefresh (caller : nat) (s : State) : State :=
  match inflight s with
  | Some (operation, _) =>
      {| world := world s; inflight := inflight s; started := started s;
         settled := settled s; handed := (caller, operation) :: handed s |}
  | None =>
      let operation := started s in
      let '(o, w) := refreshTokens_begin (world s) in
      let phase :=
        match o with
        | Returned (Some r) => AwaitingResponse r
        | _ => Finishing (settlement (fun _ => None) o)
        end in
      {| world := w; inflight := Some (operation, phase); started := S operation;
         settled := settled s; handed := (caller, operation) :: handed s |}
  end.

(** The token endpoint answers: [refreshTokens] runs to its end. *)
Definition respond (answer : HttpOutcome) (s : State) : option State :=
  match inflight s with
  | Some (operation, AwaitingResponse _) =>
      let '(o, w) := refreshTokens_resume answer (world s) in
      Some {| world := w;
              inflight := Some (operation, Finishing (settlement (fun r => r) o));
              started := started s; settled := settled s; handed := handed s |}
  | _ => None
  end.

(** Modelled from the spec: "On completion (success or failure), clear the
    inflight marker so subsequent refreshes can proceed.  Failure propagates
    to every waiter." *)
Definition complete (s : State) : option State :=
  match inflight s with
  | Some (operation, Finishing r) =>
      Some {| world := world s; inflight := None; started := started s;
              settled := <[operation := r]> (settled s); handed := handed s |}
  | _ => None
  end.

Inductive Label : Type :=
| Call (caller : nat)
| Answer (answer : HttpOutcome)
| Complete.

Inductive step : State -> Label -> State -> Prop :=
| step_call caller s :
    step s (Call caller) (handleRefresh caller s)
| step_answer answer s s' :
    respond answer s = Some s' ->
    step s (Answer answer) s'
| step_complete s s' :
    complete s = Some s' ->
    step s Complete s'.

Inductive steps : State -> list Label -> State -> Prop :=
| steps_nil s : steps s [] s
| steps_snoc s ls s' l s'' :
    steps s ls s' -> step s' l s'' -> steps s (ls ++ [l]) s''.

(** A scheme instance before any refresh, in some world. *)
Definition initial (w : World) : State :=
  {| world := w; inflight := None; started := 0; settled := ∅; handed := [] |}.

(** The same run as a function; a step that cannot happen is skipped. *)
Definition run_label (l : Label) (s : State) : State :=
  match l with
  | Call caller => handleRefresh caller s
  | Answer answer => default s (respond answer s)
  | Complete => default s (complete s)
  end.

Definition run (ls : list Label) (s : State) : State :=
  fold_left (fun s l => run_label l s) ls s.

End Controller.

Definition requests_issued (w : World) : nat := length (requests_of (trace w)).

(** The operation a caller was handed at its latest call, and what it
    observes: nothing while the operation is pending, then its outcome. *)
Definition operation_of (caller : nat) (s : State) : option nat :=
  snd <$> List.find (fun p => Nat.eqb (fst p) caller) (handed s).

Definition observes (caller : nat) (s : State) : option Settlement :=
  operation_of caller s ≫= fun operation => settled s !! operation.

End RefreshController.

(** ** A concrete platform and configuration

    The theorems below hold for every platform and every configuration; the
    definitions here run the model on examples. *)

Module Demo.

Fixpoint split_on (c : ascii) (s : string) : list string :=
  match s with
  | EmptyString => [EmptyString]
  | String a s' =>
      if Ascii.eqb a c then EmptyString :: split_on c s'
      else match split_on c s' with
           | [] => [String a EmptyString]
           | p :: ps => String a p :: ps
           end
  end.

(** [key=value&key=value] without percent-decoding. *)
Definition parse_pair (s : string) : option (string * jsval) :=
  match split_on "="%char s with
  | [k; v] => if String.eqb k "" then None else Some (k, JStr v)
  | _ => None
  end.

Definition parse_query (s : string) : gmap string jsval :=
  list_to_map (omap parse_pair (split_on "&"%char s)).

Definition show (v : jsval) : string :=
  match v with
  | JUndefined => "undefined"
  | JNull => "null"
  | JBool true => "true"
  | JBool false => "false"
  | JNum z => pretty z
  | JStr s => s
  end.

(** Properties that are [undefined] are left out of the query string. *)
Definition encode_query (o : jsobj) : string :=
  String.concat "&"
    (omap (fun kv => match snd kv with
                     | JUndefined => None
                     | v => Some (fst kv +:+ "=" +:+ show v)
                     end) o).

Definition token_response : jsobj :=
  [("access_token", JStr "T1"); ("refresh_token", JStr "R1")].

Definition browser (answer : HttpOutcome) : Platform :=
  {| process_server := false;
     crypto_random := fun i => (Z.of_nat i * 2654435761 + 40503)%Z;
     randomString := fun len c => String.concat "" (repeat "x" len);
     http := fun _ => answer;
     normalizePath := fun p => p;
     parseQuery := parse_query;
     encodeQuery := encode_query;
     encodeURIComponent := fun s => s;
     requrl_join := "https://app.example/login";
     decodeExpiry := fun _ => None;
     window_opener := false;
     popup_blocked := false;
     outerHeight := 900;
     outerWidth := 1400;
     screenX := 0;
     screenY := 0 |}.

(** [DEFAULTS] of the scheme, with the endpoints of an authorization server. *)
Definition DEFAULTS : Oauth2SchemeOptions :=
  {| name := "oauth2";
     responseType := JStr "token";
     accessType := JUndefined;
     clientId := JStr "client";
     redirectUri := JUndefined;
     scope_option := ScopeArray [];
     codeChallengeMethod := JStr "implicit";
     clientWindow := JBool false;
     clientWindowWidth := JNum 400;
     clientWindowHeight := JNum 600;
     organization := JUndefined;
     audience := JUndefined;
     responseMode := JUndefined;
     acrValues := JUndefined;
     grantType := JUndefined;
     autoLogout := false;
     endpoints_authorization := "https://id.example/authorize";
     endpoints_token := "https://id.example/token";
     token_property := "access_token";
     token_type := "Bearer";
     token_maxAge := 1800;
     refreshToken_property := "refresh_token";
     refreshToken_maxAge := 60 * 60 * 24 * 30 |}.

Definition with_responseType (v : jsval) (o : Oauth2SchemeOptions) : Oauth2SchemeOptions :=
  {| name := name o; responseType := v; accessType := accessType o;
     clientId := clientId o; redirectUri := redirectUri o;
     scope_option := scope_option o; codeChallengeMethod := codeChallengeMethod o;
     clientWindow := clientWindow o; clientWindowWidth := clientWindowWidth o;
     clientWindowHeight := clientWindowHeight o; organization := organization o;
     audience := audience o; responseMode := responseMode o;
     acrValues := acrValues o; grantType := grantType o; autoLogout := autoLogout o;
     endpoints_authorization := endpoints_authorization o;
     endpoints_token := endpoints_token o; token_property := token_property o;
     token_type := token_type o; token_maxAge := token_maxAge o;
     refreshToken_property := refreshToken_property o;
     refreshToken_maxAge := refreshToken_maxAge o |}.

Definition with_clientWindow (v : jsval) (o : Oauth2SchemeOptions) : Oauth2SchemeOptions :=
  {| name := name o; responseType := responseType o; accessType := accessType o;
     clientId := clientId o; redirectUri := redirectUri o;
     scope_option := scope_option o; codeChallengeMethod := codeChallengeMethod o;
     clientWindow := v; clientWindowWidth := clientWindowWidth o;
     clientWindowHeight := clientWindowHeight o; organization := organization o;
     audience := audience o; responseMode := responseMode o;
     acrValues := acrValues o; grantType := grantType o; autoLogout := autoLogout o;
     endpoints_authorization := endpoints_authorization o;
     endpoints_token := endpoints_token o; token_property := token_property o;
     token_type := token_type o; token_maxAge := token_maxAge o;
     refreshToken_property := refreshToken_property o;
     refreshToken_maxAge := refreshToken_maxAge o |}.

Definition with_codeChallengeMethod (v : jsval) (o : Oauth2SchemeOptions) : Oauth2SchemeOptions :=
  {| name := name o; responseType := responseType o; accessType := accessType o;
     clientId := clientId o; redirectUri := redirectUri o;
     scope_option := scope_option o; codeChallengeMethod := v;
     clientWindow := clientWindow o; clientWindowWidth := clientWindowWidth o;
     clientWindowHeight := clientWindowHeight o; organization := organization o;
     audience := audience o; responseMode := responseMode o;
     acrValues := acrValues o; grantType := grantType o; autoLogout := autoLogout o;
     endpoints_authorization := endpoints_authorization o;
     endpoints_token := endpoints_token o; token_property := token_property o;
     token_type := token_type o; token_maxAge := token_maxAge o;
     refreshToken_property := refreshToken_property o;
     refreshToken_maxAge := refreshToken_maxAge o |}.

(** A scheme on the callback route [/login] with the given address. *)
Definition scheme (o : Oauth2SchemeOptions) (answer : HttpOutcome)
    (query_ : gmap string jsval) (hash_ : string) : Scheme :=
  {| options := o;
     auth_options := {| redirect_callback := Some "/login"; watchLoggedIn := true |};
     useRoute := {| path := "/login"; hash := hash_; query := query_ |};
     platform := browser answer |}.

Definition no_token : TokenStore :=
  {| value := None; expiresAt := None; persisted_value := None; persisted_expiresAt := None |}.

Definition token_until (v : string) (e : Z) : TokenStore :=
  {| value := Some v; expiresAt := Some e;
     persisted_value := Some v; persisted_expiresAt := Some e |}.

(** A world at time [t] with the given stores and stored values. *)
Definition world (t : Z) (tok rtok : TokenStore) (st : gmap string jsval)
    (popup : WindowRef) : World :=
  {| storage := st; token := tok; refreshToken := rtok; user := JBool false;
     authorization_header := None; clientWindowReference := popup;
     strategy := "oauth2"; crypto_cursor := 0; random_cursor := 0;
     now := t; trace := [] |}.

(** A scheme instance as the constructor leaves it: nothing stored, and the
    popup reference never assigned. *)
Definition fresh : World := world 0 no_token no_token ∅ RefUndefined.

End Demo.

(** * Vocabulary of the statements *)

(** What [check] sees: it syncs both stores before it looks at them. *)
Definition synced (w : World) : World :=
  with_refreshToken store_sync (with_token store_sync w).

Definition token_present (w : World) : bool := truthy (of_opt (value (token w))).
Definition token_expired (w : World) : bool := store_expired (now w) (token w).
Definition refresh_token_present (w : World) : bool :=
  truthy (of_opt (value (refreshToken w))).
Definition refresh_token_expired (w : World) : bool :=
  store_expired (now w) (refreshToken w).

(** At most one of three flags is raised. *)
Definition at_most_one (a b c : bool) : Prop :=
  (a = true -> b = false /\ c = false) /\
  (b = true -> a = false /\ c = false) /\
  (c = true -> a = false /\ b = false).

(** Reading a hex string back, two characters per byte. *)
Definition hex_value (c : ascii) : option Z :=
  (fix find (l : list ascii) (i : Z) : option Z :=
     match l with
     | [] => None
     | a :: l' => if Ascii.eqb a c then Some i else find l' (i + 1)%Z
     end) hex_alphabet 0%Z.

Fixpoint hex_decode (s : string) : option (list Z) :=
  match s with
  | EmptyString => Some []
  | String a (String b s') =>
      match hex_value a, hex_value b, hex_decode s' with
      | Some hi, Some lo, Some bytes => Some ((16 * hi + lo)%Z :: bytes)
      | _, _, _ => None
      end
  | String _ EmptyString => None
  end.

(** The values the cryptographic source yields from position [c] on. *)
Definition random_words (this : Scheme) (c n : nat) : list Z :=
  map (fun i => crypto_random (platform this) (c + i)) (seq 0 n).

(** The key under which [login] keeps the anti-forgery state. *)
Definition state_key (this : Scheme) : string := name (options this) +:+ ".state".

(** [parsedQuery]: the query of the route with the parameters of the
    fragment assigned over it. *)
Definition parsedQuery (this : Scheme) : gmap string jsval :=
  parseQuery (platform this) (slice_from1 (hash (useRoute this))) ∪ query (useRoute this).

Definition callback_param (this : Scheme) (k : string) : jsval :=
  default JUndefined (parsedQuery this !! k).

(** The callback is handled: the route is the callback route (or no
    redirect is configured) and the code runs in the browser. *)
Definition handles_callback (this : Scheme) : bool :=
  match redirect_callback (auth_options this) with
  | Some callback =>
      String.eqb (normalizePath (platform this) (path (useRoute this)))
                 (normalizePath (platform this) callback)
  | None => true
  end && negb (process_server (platform this)).

(** A usable token: [!token || !token.length] is false. *)
Definition usable (v : jsval) : bool := truthy v && truthy (js_length v).

(** The authorization-code exchange runs. *)
Definition exchanges_code (this : Scheme) : bool :=
  strict_eq (responseType (options this)) (JStr "code") && truthy (callback_param this "code").

(** The token the callback carries in its merged parameters. *)
Definition callback_token (this : Scheme) : jsval :=
  callback_param this (token_property (options this)).

(** The sentence "with no stored state, a callback whose merged parameters
    yield a usable token writes that token to the Token store", as a
    property of one scheme instance in one world. *)
Definition writes_callback_token (this : Scheme) (w : World) : Prop :=
  handles_callback this = true ->
  storage w !! state_key this = None ->
  usable (callback_token this) = true ->
  value (token (snd (Oauth2Scheme.handleCallback this w)))
  = stored_value this (callback_token this).

(** The response type of the request: the configured one, unless the
    caller's [params] carry a [response_type] of their own. *)
Definition effective_response_type (this : Scheme) (_opts : LoginOptions) : jsval :=
  obj_get "response_type"
    (obj_spread [("response_type", responseType (options this))] (login_params _opts)).

(** A response type implies an identity token when it names [id_token]. *)
Definition implies_identity_token (response_type : string) : bool :=
  includes "id_token" response_type.

(** The sentence "the parameter set has a nonce exactly when the response
    type implies an identity token", for one call of [login]. *)
Definition nonce_iff_identity_token (this : Scheme) (_opts : LoginOptions) (w : World) : Prop :=
  forall opts w' response_type,
    Oauth2Scheme.request_parameters this _opts w = (Returned opts, w') ->
    obj_get "response_type" opts = JStr response_type ->
    obj_has "nonce" opts = implies_identity_token response_type.

(** [login()] called without arguments. *)
Definition no_login_options : LoginOptions :=
  {| login_state := JUndefined; login_params := []; login_nonce := JUndefined |}.

(** What holds of the controller in every state a run can reach from a
    world [w0]: a request is sent at most once per operation started, the
    marker names the latest operation and only an unsettled one, and
    whatever was started and is not in flight is settled. *)
Record controller_invariant (w0 : World) (s : RefreshController.State) : Prop := {
  inv_requests :
    RefreshController.requests_issued (RefreshController.world s)
    <= RefreshController.requests_issued w0 + RefreshController.started s;
  inv_inflight :
    forall operation phase,
      RefreshController.inflight s = Some (operation, phase) ->
      RefreshController.started s = S operation /\
      RefreshController.settled s !! operation = None;
  inv_settled :
    forall operation,
      operation < RefreshController.started s ->
      is_Some (RefreshController.settled s !! operation) \/
      exists phase, RefreshController.inflight s = Some (operation, phase);
  inv_bound :
    forall operation,
      is_Some (RefreshController.settled s !! operation) ->
      operation < RefreshController.started s;
  inv_handed :
    forall caller operation,
      In (caller, operation) (RefreshController.handed s) ->
      operation < RefreshController.started s
}.

(** A label can be taken in a state: a call always, an answer when a
    request is awaited, a completion when the operation has finished. *)
Definition enabled (this : Scheme) (l : RefreshController.Label)
    (s : RefreshController.State) : bool :=
  match l with
  | RefreshController.Call _ => true
  | RefreshController.Answer answer =>
      match RefreshController.respond this answer s with Some _ => true | None => false end
  | RefreshController.Complete =>
      match RefreshController.complete s with Some _ => true | None => false end
  end.

Fixpoint all_enabled (this : Scheme) (ls : list RefreshController.Label)
    (s : RefreshController.State) : bool :=
  match ls with
  | [] => true
  | l :: ls' =>
      enabled this l s && all_enabled this ls' (RefreshController.run_label this l s)
  end.

(** A string without its last character. *)
Fixpoint drop_last (s : string) : string :=
  match s with
  | EmptyString => EmptyString
  | String _ EmptyString => EmptyString
  | String a s' => String a (drop_last s')
  end.

(** What the two replacements of [#base64UrlEncode] make of a character. *)
Definition url_char (a : ascii) : ascii :=
  let a' := if Ascii.eqb a "+" then "-"%char else a in
  if Ascii.eqb a' "/" then "_"%char else a'.

(** ** Vocabulary for the rest of the scheme *)

(** The key under which [login] keeps the PKCE code verifier. *)
Definition verifier_key (this : Scheme) : string :=
  name (options this) +:+ ".pkce_code_verifier".

(** PKCE is in use: the method is set and is not [implicit]. *)
Definition uses_pkce (this : Scheme) : bool :=
  truthy (codeChallengeMethod (options this))
  && negb (strict_eq (codeChallengeMethod (options this)) (JStr "implicit")).

(** The state check of [#handleCallback] lets the callback through. *)
Definition state_accepted (this : Scheme) (w : World) : bool :=
  let state := default JUndefined (storage w !! state_key this) in
  negb (truthy state && negb (strict_eq (callback_param this "state") state)).

(** What [setUniversal(key, v)] leaves under [key]. *)
Definition kept (v : jsval) : option jsval :=
  match v with
  | JUndefined | JNull => None
  | _ => Some v
  end.

(** A scheme on a page that is not the callback route. *)
Definition elsewhere (o : Oauth2SchemeOptions) (answer : HttpOutcome)
    (query_ : gmap string jsval) (hash_ : string) : Scheme :=
  {| options := o;
     auth_options := {| redirect_callback := Some "/login"; watchLoggedIn := true |};
     useRoute := {| path := "/dashboard"; hash := hash_; query := query_ |};
     platform := Demo.browser answer |}.

(** The PKCE method of the request: the configured one, unless the caller's
    [params] carry a [code_challenge_method] of their own. *)
Definition effective_challenge_method (this : Scheme) (_opts : LoginOptions) : jsval :=
  obj_get "code_challenge_method"
    (obj_spread [("code_challenge_method", codeChallengeMethod (options this))]
                (login_params _opts)).

(** A browser whose popup blocker is on or off. *)
Definition with_popup_blocked (b : bool) (p : Platform) : Platform :=
  {| process_server := process_server p; crypto_random := crypto_random p;
     randomString := randomString p; http := http p;
     normalizePath := normalizePath p; parseQuery := parseQuery p;
     encodeQuery := encodeQuery p; encodeURIComponent := encodeURIComponent p;
     requrl_join := requrl_join p; decodeExpiry := decodeExpiry p;
     window_opener := window_opener p; popup_blocked := b;
     outerHeight := outerHeight p; outerWidth := outerWidth p;
     screenX := screenX p; screenY := screenY p |}.

Definition with_platform (p : Platform) (this : Scheme) : Scheme :=
  {| options := options this; auth_options := auth_options this;
     useRoute := useRoute this; platform := p |}.

(** The session moved on to another strategy. *)
Definition with_strategy (s : string) (w : World) : World :=
  {| storage := storage w; token := token w; refreshToken := refreshToken w;
     user := user w; authorization_header := authorization_header w;
     clientWindowReference := clientWindowReference w; strategy := s;
     crypto_cursor := crypto_cursor w; random_cursor := random_cursor w;
     now := now w; trace := trace w |}.

(** ** The rest of the session life cycle: [logout] and [mounted] *)

(** The options [logout] reads besides those above. *)
Record LogoutOptions : Type := {
  (** [endpoints.logout: string | false]; [None] stands for [false] and
      [undefined] *)
  endpoints_logout : option string;
  logoutRedirectUri : jsval;
  (** [urlJoin(requrl(this.req), this.$auth.options.redirect.logout)] *)
  requrl_join_logout : string
}.

Module Lifecycle.
Section Methods.

Variable this : Scheme.
Variable more : LogoutOptions.

(** [$auth.fetchUserOnce()], a collaborator the scheme knows nothing of. *)
Variable fetchUserOnce : M jsval.

(** [get logoutRedirectURI()] *)
Definition logoutRedirectURI : jsval :=
  js_or (logoutRedirectUri more) (JStr (requrl_join_logout more)).

(** [logout()] *)
Definition logout : M unit :=
  match endpoints_logout more with
  | Some endpoint =>
      when (truthy (JStr endpoint))
           (let opts : jsobj :=
              [("client_id", clientId (options this));
               ("redirect_uri", logoutRedirectURI)] in
            let url := endpoint +:+ "?" +:+ encodeQuery (platform this) opts in
            emit (EvLocationReplace url))
  | None => mret tt
  end;;
  Oauth2Scheme.auth_reset.

(** Modelled from the spec: "installs the Request Interceptor" (4.5), a hook
    on the HTTP client; installing it changes nothing of the state kept
    here. *)
Definition RequestHandler_initializeRequestInterceptor (refreshEndpoint : string) : M unit :=
  mret tt.

(** [mounted()] *)
Definition mounted : M jsval :=
  r ← Oauth2Scheme.check true;
  (* Force reset if refresh token has expired
     Or if `autoLogout` is enabled and token has expired *)
  when (refreshTokenExpired r || (tokenExpired r && autoLogout (options this)))
       Oauth2Scheme.auth_reset;;
  (* Initialize request interceptor *)
  RequestHandler_initializeRequestInterceptor (endpoints_token (options this));;
  (* Handle callbacks on page load *)
  redirected ← Oauth2Scheme.handleCallback this;
  if negb (truthy redirected) then fetchUserOnce else mret JUndefined.

End Methods.
End Lifecycle.

(** The addresses given to [window.location.replace], in order. *)
Fixpoint navigations (t : list Event) : list string :=
  match t with
  | [] => []
  | EvLocationReplace u :: t' => u :: navigations t'
  | _ :: t' => navigations t'
  end.

(** A session that [check(true)] finds stale after the sync: a token is
    there, and the refresh token has expired, or the token has and
    [autoLogout] is on. *)
Definition stale (this : Scheme) (w : World) : bool :=
  token_present (synced w)
  && (refresh_token_expired (synced w)
      || (token_expired (synced w) && autoLogout (options this))).

(** The world [mounted] hands to the callback handling. *)
Definition mounted_session (this : Scheme) (w : World) : World :=
  if stale this w then snd (Oauth2Scheme.auth_reset (synced w)) else synced w.

(** The events of a reset. *)
Definition reset_events : list Event :=
  [EvSetUser (JBool false); EvTokenReset; EvRefreshTokenReset; EvRequestHandlerReset].

Definition pkce_state_key (this : Scheme) : string :=
  name (options this) +:+ ".pkce_state".

(** * The auth module: [setup] *)

Module AuthModule.
Section Setup.

(** A value of [strategyScheme]: an import with its [as] name. *)
Variable ImportOptions : Type.
Variable as_ : ImportOptions -> string.

(** [Object.values(strategyScheme).filter((i) => ...)] with the set
    [uniqueImports] the callback reads and extends. *)
Fixpoint filter_unique (uniqueImports : gset string) (values : list ImportOptions)
    : list ImportOptions :=
  match values with
  | [] => []
  | i :: rest =>
      if decide (as_ i ∈ uniqueImports) then filter_unique uniqueImports rest
      else i :: filter_unique ({[as_ i]} ∪ uniqueImports) rest
  end.

(** [schemeImports] *)
Definition schemeImports (values : list ImportOptions) : list ImportOptions :=
  filter_unique ∅ values.

End Setup.

(** A resolved strategy, as far as [setup] looks at it. *)
Record Strategy : Type := { strategy_name : string }.

(** [options.defaultStrategy || strategies.length ? strategies\[0\].name : ''],
    which JavaScript reads as [(a || b) ? c : d]. *)
Definition defaultStrategy (configured : jsval) (strategies : list Strategy)
    : Outcome string :=
  if truthy (js_or configured (JNum (Z.of_nat (length strategies)))) then
    match strategies with
    | s :: _ => Returned (strategy_name s)
    | [] => Thrown (TypeError "Cannot read properties of undefined (reading 'name')")
    end
  else Returned "".

End AuthModule.

(** * The proxy module: the handler of the generated middleware *)

Module ProxyModule.

Record IncomingMessage : Type := {
  req_url : string;
  req_method : string;
  req_headers : jsobj
}.

(** What a [bypass] function returns. *)
Inductive BypassResult : Type :=
| BypassString (s : string)
| BypassObject (o : jsobj)
| BypassFalse
| BypassOther. (* void, null, undefined *)

(** The options of one context after the set-up loop, as far as the handler
    reads them; [None] stands for [false]. *)
Record ProxyOptions : Type := {
  rewrite_ : option (string -> jsval);
  bypass : option (IncomingMessage -> BypassResult)
}.

(** What the handler does with a request. *)
Inductive Handled : Type :=
| Next (url_ : string)    (* [next()]: the promise resolves; [req.url] is [url_] *)
| Rejected                (* the executor threw: the promise rejects *)
| End404                  (* [event.res.end(404)]; the promise never settles *)
| Web (context : string) (url_ : jsval) (options_ : jsobj).
                          (* [proxy.web(req, res, options)]; never settles *)

Section Handler.

(** [new RegExp(context)]: [None] when the pattern is not a regular
    expression ([SyntaxError]), else its [test]. *)
Variable RegExp : string -> option (string -> bool).

(** [doesProxyContextMatchUrl(context, url)]; [None] when it throws. *)
Definition doesProxyContextMatchUrl (context url_ : string) : option bool :=
  if String.prefix "^" context then
    match RegExp context with
    | Some test => Some (test url_ || String.prefix context url_)
    | None => None
    end
  else Some (String.prefix context url_).

(** The body of the [for (const context in proxies)] loop and the [next()]
    after it; [proxies] in the order of the iteration. *)
Fixpoint handler (proxies : list (string * ProxyOptions)) (req : IncomingMessage) : Handled :=
  match proxies with
  | [] => Next (req_url req)
  | (context, opts) :: rest =>
      match doesProxyContextMatchUrl context (req_url req) with
      | None => Rejected
      | Some false => handler rest req
      | Some true =>
          let options_ : jsobj := [] in
          let proxied :=
            let url_ := match rewrite_ opts with
                        | Some rewrite => rewrite (req_url req)
                        | None => JStr (req_url req)
                        end in
            Web context url_ options_ in
          match bypass opts with
          | Some bypass =>
              match bypass req with
              | BypassString bypassResult => Next bypassResult
              | BypassObject bypassResult =>
                  let options_ := obj_spread options_ bypassResult in
                  Next (req_url req)
              | BypassFalse => End404
              | BypassOther => proxied
              end
          | None => proxied
          end
      end
  end.

(** The contexts the loop reaches and leaves behind. *)
Definition passes (proxies : list (string * ProxyOptions)) (url_ : string) : Prop :=
  Forall (fun p => doesProxyContextMatchUrl (fst p) url_ = Some false) proxies.

End Handler.
End ProxyModule.

(** ** Reading a base64url string back *)

Definition url_alphabet : list ascii :=
  list_ascii_of_string "ABCDEFGHIJKLMNOPQRSTUVWXYZabcdefghijklmnopqrstuvwxyz0123456789-_".

Fixpoint index_of (c : ascii) (l : list ascii) : option Z :=
  match l with
  | [] => None
  | x :: l' => if Ascii.eqb c x then Some 0%Z else Z.succ <$> index_of c l'
  end.

(** The six bits a character of the URL-safe alphabet stands for. *)
Definition url_value (c : ascii) : option Z := index_of c url_alphabet.

(** The bytes an unpadded base64url string stands for (RFC 4648, section
    5): four characters give three bytes, a rest of three gives two, a rest
    of two gives one. *)
Fixpoint base64UrlDecode (s : string) : option (list Z) :=
  match s with
  | EmptyString => Some []
  | String _ EmptyString => None
  | String c1 (String c2 s2) =>
      match url_value c1, url_value c2 with
      | Some v1, Some v2 =>
          let b1 := Z.lor (Z.shiftl v1 2) (Z.shiftr v2 4) in
          match s2 with
          | EmptyString => Some [b1]
          | String c3 s3 =>
              match url_value c3 with
              | Some v3 =>
                  let b2 := Z.lor (Z.shiftl (Z.land v2 15) 4) (Z.shiftr v3 2) in
                  match s3 with
                  | EmptyString => Some [b1; b2]
                  | String c4 s4 =>
                      match url_value c4 with
                      | Some v4 =>
                          let b3 := Z.lor (Z.shiftl (Z.land v3 3) 6) v4 in
                          (fun rest => b1 :: b2 :: b3 :: rest) <$> base64UrlDecode s4
                      | None => None
                      end
                  end
              | None => None
              end
          end
      | _, _ => None
      end
  end.

(** A list of octets. *)
Definition octets (bs : list Z) : Prop := Forall (fun b => (0 <= b < 256)%Z) bs.

(** A test holds of every number below [n]. *)
Definition all_below (n : nat) (P : Z -> bool) : bool :=
  forallb (fun i => P (Z.of_nat i)) (seq 0 n).

(** The refresh token of the callback's merged parameters. *)
Definition callback_refresh_token (this : Scheme) : jsval :=
  if negb (String.eqb (refreshToken_property (options this)) "")
  then callback_param this (refreshToken_property (options this))
  else JUndefined.

(** How [#handleCallback] ends once the tokens are stored: the events, and
    the value returned. *)
Definition completion (this : Scheme) : list Event * jsval :=
  if truthy (clientWindow (options this)) then
    (if window_opener (platform this) then [EvPostMessage; EvWindowClose] else [],
     JUndefined)
  else if watchLoggedIn (auth_options this) then ([EvRedirect "home"], JBool true)
  else ([], JUndefined).

(** * Properties *)

(** Unfolding of the monad: a method applied to a world becomes the pair of
    its outcome and the world it leaves. *)
Ltac monad_unfold :=
  unfold mbind, M_bind, mret, M_ret, gets, modify, emit, throw, catch, when in *.

Ltac run := monad_unfold; simpl.

(** ** [check] *)

Lemma check_returns checkStatus w :
  exists r, Oauth2Scheme.check checkStatus w = (Returned r, synced w).
Proof.
  unfold Oauth2Scheme.check, Token_sync, RefreshToken_sync,
    Token_status_expired, RefreshToken_status_expired.
  run.
  destruct (truthy (of_opt (persisted_value (token w)))); simpl; [|eauto].
  destruct checkStatus; simpl; [|eauto].
  destruct (store_expired _ _); simpl; [eauto|].
  destruct (store_expired _ _); simpl; eauto.
Qed.

Lemma check_true_cases w r :
  Oauth2Scheme.check true w = (Returned r, synced w) ->
  isRefreshable r = true /\
  valid r = token_present (synced w) && negb (refresh_token_expired (synced w))
            && negb (token_expired (synced w)) /\
  refreshTokenExpired r = token_present (synced w) && refresh_token_expired (synced w) /\
  tokenExpired r = token_present (synced w) && negb (refresh_token_expired (synced w))
                   && token_expired (synced w).
Proof.
  unfold Oauth2Scheme.check, Token_sync, RefreshToken_sync,
    Token_status_expired, RefreshToken_status_expired,
    token_present, token_expired, refresh_token_expired, synced.
  run.
  destruct (truthy (of_opt (persisted_value (token w)))); simpl.
  - destruct (store_expired (now w) (store_sync (refreshToken w))); simpl.
    + intros [= <-]. simpl. auto.
    + destruct (store_expired (now w) (store_sync (token w))); simpl;
        intros [= <-]; simpl; auto.
  - intros [= <-]. simpl. auto.
Qed.

(** C2.  When a token is present and [check] validates the status, at most
    one of [valid], [tokenExpired] and [refreshTokenExpired] is raised, and
    the expiry of the refresh token comes first: with both tokens expired the
    result has [refreshTokenExpired] and not [tokenExpired]. *)
Theorem check_status_exclusive (w : World) :
  token_present (synced w) = true ->
  exists r w',
    Oauth2Scheme.check true w = (Returned r, w') /\
    at_most_one (valid r) (tokenExpired r) (refreshTokenExpired r) /\
    (refresh_token_expired (synced w) = true ->
     token_expired (synced w) = true ->
     refreshTokenExpired r = true /\ tokenExpired r = false).
Proof.
  intros Hpresent.
  destruct (check_returns true w) as [r Hr].
  exists r, (synced w). split; [exact Hr|].
  destruct (check_true_cases w r Hr) as (_ & Hv & Hre & Hte).
  rewrite Hpresent in Hv, Hre, Hte. simpl in Hv, Hre, Hte.
  rewrite Hv, Hre, Hte. unfold at_most_one.
  destruct (refresh_token_expired (synced w)), (token_expired (synced w));
    simpl; repeat split; intros; auto; discriminate.
Qed.

(** Both tokens expired at time 100: the refresh token's expiry is reported. *)
Lemma check_status_exclusive_witness :
  let w := Demo.world 100 (Demo.token_until "T" 50) (Demo.token_until "R" 60) ∅ RefNull in
  token_present (synced w) = true /\
  refresh_token_expired (synced w) = true /\
  token_expired (synced w) = true /\
  exists r w',
    Oauth2Scheme.check true w = (Returned r, w') /\
    at_most_one (valid r) (tokenExpired r) (refreshTokenExpired r) /\
    refreshTokenExpired r = true /\
    tokenExpired r = false.
Proof.
  intros w.
  assert (Hp : token_present (synced w) = true) by reflexivity.
  split; [exact Hp|]. split; [reflexivity|]. split; [reflexivity|].
  destruct (check_status_exclusive w Hp) as (r & w' & Hrun & Hone & Hboth).
  exists r, w'. split; [exact Hrun|]. split; [exact Hone|].
  apply Hboth; reflexivity.
Defined.

(** C9.  Whatever the stores hold and whether or not the status is checked,
    [check] returns a result, and the result has [isRefreshable] set. *)
Theorem check_isRefreshable (checkStatus : bool) (w : World) :
  exists r w',
    Oauth2Scheme.check checkStatus w = (Returned r, w') /\ isRefreshable r = true.
Proof.
  unfold Oauth2Scheme.check, Token_sync, RefreshToken_sync,
    Token_status_expired, RefreshToken_status_expired.
  run.
  destruct (truthy (of_opt (persisted_value (token w)))); simpl; [|eauto].
  destruct checkStatus; simpl; [|eauto].
  destruct (store_expired _ _); simpl; [eauto|].
  destruct (store_expired _ _); simpl; eauto.
Qed.

(** ** [generateRandomString] *)

Lemma append_cons (a : ascii) (s t : string) : String a s +:+ t = String a (s +:+ t).
Proof. reflexivity. Qed.

Lemma append_empty_l (t : string) : EmptyString +:+ t = t.
Proof. reflexivity. Qed.

Lemma substring_whole (t : string) : substring 0 (String.length t) t = t.
Proof. induction t as [|b t IHt]; simpl; [reflexivity | now rewrite IHt]. Qed.

Lemma substring_app_tail (p t : string) :
  substring (String.length p) (String.length t) (p +:+ t) = t.
Proof.
  induction p as [|a p IH].
  - rewrite append_empty_l. apply substring_whole.
  - rewrite append_cons. simpl. exact IH.
Qed.

Lemma length_append (p t : string) :
  String.length (p +:+ t) = String.length p + String.length t.
Proof.
  induction p as [|a p IH].
  - reflexivity.
  - rewrite append_cons. simpl. now rewrite IH.
Qed.

Lemma slice_last2_app (p : string) (a b : ascii) :
  slice_last2 (p +:+ String a (String b EmptyString)) = String a (String b EmptyString).
Proof.
  unfold slice_last2. rewrite length_append. simpl.
  replace (String.length p + 2 - 2) with (String.length p) by lia.
  apply (substring_app_tail p (String a (String b EmptyString))).
Qed.

Lemma append_assoc (a b c : string) : (a +:+ b) +:+ c = a +:+ (b +:+ c).
Proof.
  induction a as [|x a IH].
  - reflexivity.
  - rewrite !append_cons. now rewrite IH.
Qed.

Lemma append_empty_r (a : string) : a +:+ EmptyString = a.
Proof.
  induction a as [|x a IH]; [reflexivity | rewrite append_cons; now rewrite IH].
Qed.

(** Whatever the higher digits are, the digits of a number end with the
    digit of its value modulo 16. *)
Lemma toString16_aux_last (fuel : nat) (n : Z) :
  (0 <= n)%Z ->
  exists p, toString16_aux (S fuel) n = p +:+ String (hex_digit (n mod 16)) EmptyString.
Proof.
  intros Hn. simpl. destruct (n <? 16)%Z eqn:E.
  - exists EmptyString. rewrite append_empty_l. apply Z.ltb_lt in E.
    now rewrite Z.mod_small by lia.
  - eexists. reflexivity.
Qed.

(** [('0' + dec.toString(16)).slice(-2)] is the low byte of [dec] on two
    hex digits. *)
Lemma hex_of_element_low_byte (dec : Z) :
  (0 <= dec)%Z ->
  Oauth2Scheme.hex_of_element dec =
  String (hex_digit (dec mod 256 / 16)) (String (hex_digit (dec mod 256 mod 16)) EmptyString).
Proof.
  intros Hdec. unfold Oauth2Scheme.hex_of_element, toString16.
  assert (Hlo : (dec mod 256 mod 16 = dec mod 16)%Z).
  { apply Z.mod_mod_divide. exists 16%Z. reflexivity. }
  assert (Hhi : (dec mod 256 / 16 = dec / 16 mod 16)%Z).
  { change 256%Z with (16 * 16)%Z. rewrite Z.rem_mul_r by lia.
    rewrite (Z.mul_comm 16), Z.div_add by lia.
    rewrite Z.div_small by (apply Z.mod_pos_bound; lia). lia. }
  rewrite Hlo, Hhi.
  destruct (dec <? 16)%Z eqn:E.
  - apply Z.ltb_lt in E. apply Z.ltb_lt in E as E'. simpl. rewrite E'.
    rewrite (Z.div_small dec 16) by lia. rewrite Z.mod_0_l by lia.
    rewrite (Z.mod_small dec 16) by lia.
    reflexivity.
  - assert (E' : (16 <= dec)%Z) by (apply Z.ltb_ge; exact E).
    assert (Hlog : (4 <= Z.log2 dec)%Z) by (apply (Z.log2_le_mono 16 dec); lia).
    destruct (Z.to_nat (Z.log2 dec)) as [|fuel] eqn:Ef; [lia|].
    change (toString16_aux (S (S fuel)) dec)
      with (if (dec <? 16)%Z then String (hex_digit dec) EmptyString
            else toString16_aux (S fuel) (dec / 16)
                 +:+ String (hex_digit (dec mod 16)) EmptyString).
    rewrite E.
    destruct (toString16_aux_last fuel (dec / 16)) as [p Hp];
      [apply Z.div_pos; lia|].
    rewrite Hp. rewrite append_assoc, <- append_assoc.
    rewrite append_cons, append_empty_l.
    apply slice_last2_app.
Qed.

Lemma hex_value_digit (d : Z) :
  (0 <= d < 16)%Z -> hex_value (hex_digit d) = Some d.
Proof.
  intros Hd.
  assert (H : In d (map Z.of_nat (seq 0 16))).
  { apply in_map_iff. exists (Z.to_nat d). split; [lia | apply in_seq; lia]. }
  simpl in H.
  repeat (destruct H as [<- | H]; [reflexivity|]). destruct H.
Qed.

Lemma hex_decode_pair (a b : ascii) (s : string) :
  hex_decode (String a (String b s)) =
  match hex_value a, hex_value b, hex_decode s with
  | Some hi, Some lo, Some bytes => Some ((16 * hi + lo)%Z :: bytes)
  | _, _, _ => None
  end.
Proof. reflexivity. Qed.

Lemma concat_empty_cons (x : string) (xs : list string) :
  String.concat "" (x :: xs) = x +:+ String.concat "" xs.
Proof.
  destruct xs as [|y ys]; simpl.
  - now rewrite append_empty_r.
  - now rewrite append_empty_l.
Qed.

Lemma hex_elements_decode (l : list Z) :
  Forall (fun x => 0 <= x)%Z l ->
  hex_decode (String.concat "" (map Oauth2Scheme.hex_of_element l))
  = Some (map (fun x => x mod 256)%Z l)
  /\ String.length (String.concat "" (map Oauth2Scheme.hex_of_element l)) = 2 * length l.
Proof.
  induction 1 as [|x l Hx Hl [IHd IHl]]; [split; reflexivity|].
  change (map Oauth2Scheme.hex_of_element (x :: l))
    with (Oauth2Scheme.hex_of_element x :: map Oauth2Scheme.hex_of_element l).
  rewrite concat_empty_cons, (hex_of_element_low_byte x Hx).
  rewrite !append_cons, append_empty_l.
  pose proof (Z.mod_pos_bound x 256 ltac:(lia)) as Hb.
  split.
  - rewrite hex_decode_pair, IHd.
    rewrite !hex_value_digit.
    + simpl. do 2 f_equal.
      rewrite (Z.div_mod (x mod 256) 16) at 3 by lia. reflexivity.
    + apply Z.mod_pos_bound; lia.
    + split; [apply Z.div_pos; lia | apply Z.div_lt_upper_bound; lia].
  - simpl. rewrite IHl. lia.
Qed.

Lemma to_uint32_low_byte (z : Z) : (to_uint32 z mod 256 = z mod 256)%Z.
Proof.
  unfold to_uint32. apply Z.mod_mod_divide. exists (2 ^ 24)%Z. reflexivity.
Qed.

Lemma generateRandomString_eq (this : Scheme) (w : World) :
  Oauth2Scheme.generateRandomString this w
  = (Returned (String.concat ""
       (map Oauth2Scheme.hex_of_element
          (map (fun i => to_uint32 (crypto_random (platform this) (crypto_cursor w + i)))
               (seq 0 28)))),
     with_crypto_cursor (crypto_cursor w + 28) w).
Proof. reflexivity. Qed.

(** C6.  Every call of [generateRandomString] returns 56 hex characters that
    spell 28 bytes, two characters each: the low bytes of the next 28 values
    of the cryptographic random source, which the call consumes. *)
Theorem generateRandomString_entropy (this : Scheme) (w : World) :
  exists s,
    Oauth2Scheme.generateRandomString this w
    = (Returned s, with_crypto_cursor (crypto_cursor w + 28) w) /\
    String.length s = 2 * 28 /\
    hex_decode s
    = Some (map (fun x => x mod 256)%Z (random_words this (crypto_cursor w) 28)) /\
    length (random_words this (crypto_cursor w) 28) = 28.
Proof.
  rewrite generateRandomString_eq.
  eexists. split; [reflexivity|].
  set (words := map (fun i => to_uint32 (crypto_random (platform this) (crypto_cursor w + i)))
                    (seq 0 28)).
  assert (Hpos : Forall (fun x => 0 <= x)%Z words).
  { apply Forall_forall. intros x Hin.
    apply list_elem_of_In, in_map_iff in Hin as (i & <- & _).
    unfold to_uint32. apply Z.mod_pos_bound. lia. }
  destruct (hex_elements_decode words Hpos) as [Hd Hl].
  split; [|split].
  - rewrite Hl. unfold words. now rewrite length_map, length_seq.
  - rewrite Hd. f_equal. unfold words, random_words.
    rewrite !map_map. apply map_ext. intros i. apply to_uint32_low_byte.
  - unfold random_words. now rewrite length_map, length_seq.
Qed.

(** ** [#handleCallback] *)

Lemma handles_callback_guards (this : Scheme) :
  handles_callback this = true ->
  match redirect_callback (auth_options this) with
  | Some callback =>
      negb (String.eqb (normalizePath (platform this) (path (useRoute this)))
                       (normalizePath (platform this) callback))
  | None => false
  end = false /\ process_server (platform this) = false.
Proof.
  unfold handles_callback. intros H. apply andb_true_iff in H as [H1 H2].
  split.
  - destruct (redirect_callback (auth_options this)); [now rewrite H1 | reflexivity].
  - now destruct (process_server (platform this)).
Qed.

Ltac split_ifs :=
  repeat match goal with
  | |- context [if ?c then _ else _] => destruct c eqn:?; simpl
  | |- context [match http ?p ?r with _ => _ end] => destruct (http p r) eqn:?; simpl
  end.

Lemma handleCallback_deletes_state (this : Scheme) (w : World) :
  handles_callback this = true ->
  storage (snd (Oauth2Scheme.handleCallback this w)) !! state_key this = None.
Proof.
  intros Hcb. destruct (handles_callback_guards this Hcb) as [Hroute Hserver].
  unfold Oauth2Scheme.handleCallback. rewrite Hroute, Hserver.
  unfold getUniversal, setUniversal, auth_request, Token_set, RefreshToken_set, auth_redirect.
  run.
  split_ifs.
  all: try apply lookup_delete_eq.
  all: apply lookup_delete_None; right; apply lookup_delete_eq.
Qed.

Lemma handleCallback_mismatch (this : Scheme) (w : World) (stored : jsval) :
  handles_callback this = true ->
  storage w !! state_key this = Some stored ->
  truthy stored = true ->
  callback_param this "state" <> stored ->
  Oauth2Scheme.handleCallback this w
  = (Returned JUndefined, with_storage (delete (state_key this)) w).
Proof.
  intros Hcb Hstored Htruthy Hneq.
  destruct (handles_callback_guards this Hcb) as [Hroute Hserver].
  unfold Oauth2Scheme.handleCallback. rewrite Hroute, Hserver.
  unfold getUniversal, setUniversal. run.
  fold (state_key this). rewrite Hstored. simpl. rewrite Htruthy. simpl.
  unfold strict_eq. fold (parsedQuery this). fold (callback_param this "state").
  rewrite bool_decide_eq_false_2 by exact Hneq. reflexivity.
Qed.



Lemma exchanges_code_eq (this : Scheme) :
  strict_eq (responseType (options this)) (JStr "code")
  && truthy (default JUndefined
       ((parseQuery (platform this) (slice_from1 (hash (useRoute this)))
         ∪ query (useRoute this)) !! "code"))
  = exchanges_code this.
Proof. reflexivity. Qed.

Lemma callback_token_eq (this : Scheme) :
  default JUndefined
    ((parseQuery (platform this) (slice_from1 (hash (useRoute this)))
      ∪ query (useRoute this)) !! token_property (options this))
  = callback_token this.
Proof. reflexivity. Qed.

Lemma usable_inv (v : jsval) :
  usable v = true -> negb (truthy v) || negb (truthy (js_length v)) = false.
Proof.
  unfold usable. intros H. apply andb_true_iff in H as [-> ->]. reflexivity.
Qed.

Lemma unusable_inv (v : jsval) :
  usable v = false -> negb (truthy v) || negb (truthy (js_length v)) = true.
Proof.
  unfold usable. destruct (truthy v), (truthy (js_length v)); simpl; congruence.
Qed.

Lemma requests_of_app (s t : list Event) :
  requests_of (s ++ t) = requests_of s ++ requests_of t.
Proof.
  induction s as [|e s IH]; [reflexivity|].
  destruct e; simpl; now rewrite IH.
Qed.

Lemma tokens_set_app (s t : list Event) :
  tokens_set (s ++ t) = tokens_set s ++ tokens_set t.
Proof.
  induction s as [|e s IH]; [reflexivity|].
  destruct e; simpl; now rewrite IH.
Qed.

Lemma refresh_tokens_set_app (s t : list Event) :
  refresh_tokens_set (s ++ t) = refresh_tokens_set s ++ refresh_tokens_set t.
Proof.
  induction s as [|e s IH]; [reflexivity|].
  destruct e; simpl; now rewrite IH.
Qed.

Create Rewrite HintDb log.
#[local] Hint Rewrite requests_of_app tokens_set_app refresh_tokens_set_app
  app_nil_r : log.

(** Without a stored state and without a code exchange, the token of the
    callback is written, whatever the callback's [state] parameter is. *)
Lemma handleCallback_no_state_no_exchange (this : Scheme) (w : World) :
  handles_callback this = true ->
  storage w !! state_key this = None ->
  exchanges_code this = false ->
  usable (callback_token this) = true ->
  let w' := snd (Oauth2Scheme.handleCallback this w) in
  value (token w') = stored_value this (callback_token this) /\
  tokens_set (trace w') = (tokens_set (trace w) ++ [callback_token this])%list /\
  requests_of (trace w') = requests_of (trace w).
Proof.
  intros Hcb Hstored Hex Huse.
  destruct (handles_callback_guards this Hcb) as [Hroute Hserver].
  unfold Oauth2Scheme.handleCallback. rewrite Hroute, Hserver.
  unfold getUniversal, setUniversal, auth_request, Token_set, RefreshToken_set, auth_redirect.
  run.
  fold (state_key this). rewrite Hstored. simpl.
  rewrite exchanges_code_eq, Hex. simpl.
  rewrite callback_token_eq. rewrite (usable_inv _ Huse).
  split_ifs; autorewrite with log; simpl; autorewrite with log; auto.
Qed.

(** Without a stored state and with a code exchange, the exchange decides:
    its token comes first, and its failure leaves the token store alone. *)
Lemma handleCallback_no_state_exchange (this : Scheme) (w : World) :
  handles_callback this = true ->
  storage w !! state_key this = None ->
  exchanges_code this = true ->
  let w' := snd (Oauth2Scheme.handleCallback this w) in
  exists r,
    requests_of (trace w') = (requests_of (trace w) ++ [r])%list /\
    match http (platform this) r with
    | HttpOk response =>
        let t := js_or (getProp response (token_property (options this)))
                       (callback_token this) in
        if usable t
        then value (token w') = stored_value this t /\
             tokens_set (trace w') = (tokens_set (trace w) ++ [t])%list
        else token w' = token w /\ tokens_set (trace w') = tokens_set (trace w)
    | HttpFail error =>
        fst (Oauth2Scheme.handleCallback this w) = Thrown (RequestError error) /\
        token w' = token w /\
        tokens_set (trace w') = tokens_set (trace w)
    end.
Proof.
  intros Hcb Hstored Hex.
  destruct (handles_callback_guards this Hcb) as [Hroute Hserver].
  unfold Oauth2Scheme.handleCallback. rewrite Hroute, Hserver.
  unfold getUniversal, setUniversal, auth_request, Token_set, RefreshToken_set, auth_redirect.
  run.
  fold (state_key this). rewrite Hstored. simpl.
  rewrite exchanges_code_eq, Hex. simpl.
  rewrite callback_token_eq.
  destruct (truthy (codeChallengeMethod (options this)) && _) eqn:Hpkce; simpl.
  all: match goal with
       | |- context [http ?p ?r] => exists r; destruct (http p r) as [response|error] eqn:Hhttp
       end; simpl.
  all: try (destruct (usable _) eqn:Huse;
            [rewrite (usable_inv _ Huse) | rewrite (unusable_inv _ Huse)]; simpl).
  all: split_ifs; autorewrite with log; simpl; autorewrite with log; auto.
Qed.

(** C10 (as amended).  The state check rejects only when a state is stored:
    with none stored it passes whatever the callback's [state] parameter is,
    and a callback whose merged parameters yield a usable token then writes a
    token.  Without a code exchange it is that token.  When the exchange
    runs, the token of the response comes first, and a failed exchange
    writes nothing. *)
Theorem handleCallback_vacuous_state_check (this : Scheme) (w : World) :
  handles_callback this = true ->
  storage w !! state_key this = None ->
  usable (callback_token this) = true ->
  let w' := snd (Oauth2Scheme.handleCallback this w) in
  (exchanges_code this = false ->
   value (token w') = stored_value this (callback_token this) /\
   tokens_set (trace w') = tokens_set (trace w) ++ [callback_token this]) /\
  (exchanges_code this = true ->
   exists r,
     requests_of (trace w') = requests_of (trace w) ++ [r] /\
     match http (platform this) r with
     | HttpOk response =>
         let t := js_or (getProp response (token_property (options this)))
                        (callback_token this) in
         usable t = true ->
         value (token w') = stored_value this t /\
         tokens_set (trace w') = tokens_set (trace w) ++ [t]
     | HttpFail error =>
         fst (Oauth2Scheme.handleCallback this w) = Thrown (RequestError error) /\
         token w' = token w /\
         tokens_set (trace w') = tokens_set (trace w)
     end).
Proof.
  intros Hcb Hstored Huse w'. split; intros Hex.
  - destruct (handleCallback_no_state_no_exchange this w Hcb Hstored Hex Huse)
      as (Hv & Ht & _).
    split; assumption.
  - destruct (handleCallback_no_state_exchange this w Hcb Hstored Hex) as (r & Hr & H).
    exists r. split; [exact Hr|].
    destruct (http (platform this) r) as [response|error]; [|exact H].
    simpl in *. intros Ht. rewrite Ht in H. exact H.
Qed.

(** Nothing is stored, the fragment carries a token and a [state] nobody
    issued: the token is written.  With the response type [code] and a code
    in the query, the token of the exchange is written instead. *)
Lemma handleCallback_vacuous_state_check_witness :
  let this := Demo.scheme Demo.DEFAULTS (HttpOk Demo.token_response)
                ∅ "#access_token=T0&state=forged" in
  let that := Demo.scheme (Demo.with_responseType (JStr "code") Demo.DEFAULTS)
                (HttpOk Demo.token_response)
                {[ "code" := JStr "abc"; "access_token" := JStr "T0" ]} "" in
  let w := Demo.fresh in
  (handles_callback this = true /\
   storage w !! state_key this = None /\
   usable (callback_token this) = true /\
   exchanges_code this = false /\
   value (token (snd (Oauth2Scheme.handleCallback this w))) = Some "T0" /\
   tokens_set (trace (snd (Oauth2Scheme.handleCallback this w))) = [JStr "T0"]) /\
  (handles_callback that = true /\
   storage w !! state_key that = None /\
   usable (callback_token that) = true /\
   exchanges_code that = true /\
   value (token (snd (Oauth2Scheme.handleCallback that w))) = Some "T1" /\
   tokens_set (trace (snd (Oauth2Scheme.handleCallback that w))) = [JStr "T1"]).
Proof.
  intros this that w. split.
  - assert (H1 : handles_callback this = true) by reflexivity.
    assert (H2 : storage w !! state_key this = None) by reflexivity.
    assert (H3 : usable (callback_token this) = true) by (vm_compute; reflexivity).
    assert (H4 : exchanges_code this = false) by (vm_compute; reflexivity).
    repeat (split; [assumption|]).
    exact (proj1 (handleCallback_vacuous_state_check this w H1 H2 H3) H4).
  - assert (H1 : handles_callback that = true) by reflexivity.
    assert (H2 : storage w !! state_key that = None) by reflexivity.
    assert (H3 : usable (callback_token that) = true) by (vm_compute; reflexivity).
    assert (H4 : exchanges_code that = true) by (vm_compute; reflexivity).
    repeat (split; [assumption|]).
    destruct (proj2 (handleCallback_vacuous_state_check that w H1 H2 H3) H4)
      as (r & Hr & H).
    assert (Hreq : r = Oauth2Scheme.exchange_request that (JStr "abc") JUndefined).
    { vm_compute in Hr. now injection Hr as <-. }
    subst r. exact (H eq_refl).
Defined.

(** The sentence fails as it stands when the code exchange runs: the
    response type is [code], the callback carries [code=abc] next to
    [access_token=T0], nothing is stored, and the token endpoint refuses the
    code.  The callback throws and no token is written. *)
Lemma handleCallback_exchange_failure_writes_nothing :
  let this := Demo.scheme (Demo.with_responseType (JStr "code") Demo.DEFAULTS)
                (HttpFail "invalid_grant")
                {[ "code" := JStr "abc"; "access_token" := JStr "T0" ]} "" in
  ~ writes_callback_token this Demo.fresh.
Proof.
  intros this Hsentence.
  assert (H : value (token (snd (Oauth2Scheme.handleCallback this Demo.fresh)))
              = stored_value this (callback_token this)).
  { apply Hsentence; vm_compute; reflexivity. }
  vm_compute in H. discriminate H.
Qed.

(** ** [refreshTokens] *)

Lemma refreshTokens_absent (this : Scheme) (w : World) :
  refresh_token_present w = false ->
  Oauth2Scheme.refreshTokens this w = (Returned None, w).
Proof.
  unfold refresh_token_present, Oauth2Scheme.refreshTokens, RefreshToken_get.
  run. intros ->. reflexivity.
Qed.

Lemma refreshTokens_expired (this : Scheme) (w : World) :
  refresh_token_present w = true ->
  refresh_token_expired w = true ->
  exists w',
    Oauth2Scheme.refreshTokens this w = (Thrown ExpiredAuthSessionError, w') /\
    trace w' = trace w ++ [EvAuthReset; EvSetUser (JBool false); EvTokenReset;
                           EvRefreshTokenReset; EvRequestHandlerReset] /\
    value (token w') = None /\
    value (refreshToken w') = None /\
    user w' = JBool false /\
    authorization_header w' = None.
Proof.
  unfold refresh_token_present, refresh_token_expired, Oauth2Scheme.refreshTokens,
    RefreshToken_get, RefreshToken_status_expired, Oauth2Scheme.auth_reset,
    Oauth2Scheme.reset, auth_setUser, Token_reset, RefreshToken_reset,
    RequestHandler_reset.
  intros Hp He. monad_unfold. rewrite Hp.
  change (negb true) with false. cbv beta iota. rewrite He.
  eexists. split; [reflexivity|]. simpl.
  rewrite <- !app_assoc. simpl. repeat split.
Qed.

Lemma refreshTokens_exchange (this : Scheme) (w : World) :
  refresh_token_present w = true ->
  refresh_token_expired w = false ->
  let r := Oauth2Scheme.refresh_request this (of_opt (value (refreshToken w))) in
  let o := fst (Oauth2Scheme.refreshTokens this w) in
  let w' := snd (Oauth2Scheme.refreshTokens this w) in
  authorization_header w' = None /\
  match http (platform this) r with
  | HttpOk response =>
      let token_ := getProp response (token_property (options this)) in
      let refreshToken_ := getProp response (refreshToken_property (options this)) in
      o = Returned (Some response) /\
      trace w' = trace w ++ [EvClearHeader; EvRequest r; EvTokenSet token_]
                         ++ (if truthy refreshToken_
                             then [EvRefreshTokenSet refreshToken_] else []) /\
      value (token w') = stored_value this token_ /\
      (if truthy refreshToken_
       then value (refreshToken w') = stored_value this refreshToken_
       else refreshToken w' = refreshToken w)
  | HttpFail error =>
      o = Thrown (RequestError error) /\
      trace w' = trace w ++ [EvClearHeader; EvRequest r;
                             EvCallOnError (RequestError error) "refreshToken"] /\
      token w' = token w /\
      refreshToken w' = refreshToken w
  end.
Proof.
  unfold refresh_token_present, refresh_token_expired, Oauth2Scheme.refreshTokens,
    RefreshToken_get, RefreshToken_status_expired, RequestHandler_clearHeader,
    auth_request, auth_callOnError, Oauth2Scheme.updateTokens, Token_set,
    RefreshToken_set.
  intros Hp He. monad_unfold. rewrite Hp.
  change (negb true) with false. cbv beta iota. rewrite He. simpl.
  destruct (http (platform this) _) as [response|error]; simpl.
  - destruct (truthy (getProp response (refreshToken_property (options this))));
      simpl; rewrite <- !app_assoc; simpl; repeat split.
  - rewrite <- !app_assoc; simpl; repeat split.
Qed.



(** ** [login]: the request parameters *)

Lemma obj_get_set (k k' : string) (v : jsval) (o : jsobj) :
  obj_get k (obj_set k' v o) = if String.eqb k k' then v else obj_get k o.
Proof.
  induction o as [|[k0 v0] o IH]; simpl.
  - destruct (String.eqb k k'); reflexivity.
  - destruct (String.eqb_spec k' k0) as [->|Hne]; simpl.
    + destruct (String.eqb k k0); reflexivity.
    + rewrite IH. destruct (String.eqb_spec k k0) as [->|Hne'].
      * apply String.eqb_neq in Hne. rewrite String.eqb_sym in Hne. now rewrite Hne.
      * reflexivity.
Qed.

Lemma obj_has_set (k k' : string) (v : jsval) (o : jsobj) :
  obj_has k (obj_set k' v o) = String.eqb k k' || obj_has k o.
Proof.
  induction o as [|[k0 v0] o IH]; simpl.
  - now rewrite orb_false_r.
  - destruct (String.eqb_spec k' k0) as [->|Hne]; simpl.
    + destruct (String.eqb k k0); reflexivity.
    + rewrite IH. destruct (String.eqb k k0), (String.eqb k k'); reflexivity.
Qed.

Lemma obj_has_spread (k : string) (p o : jsobj) :
  obj_has k (obj_spread o p) = obj_has k o || obj_has k p.
Proof.
  unfold obj_spread. revert o.
  induction p as [|[k0 v0] p IH]; intros o; simpl.
  - now rewrite orb_false_r.
  - rewrite IH, obj_has_set. simpl.
    destruct (String.eqb k k0), (obj_has k o), (obj_has k p); reflexivity.
Qed.

(** What a spread leaves under a key depends on what was there before
    only through that one property. *)
Lemma obj_get_spread (k : string) (p o1 o2 : jsobj) :
  obj_get k o1 = obj_get k o2 ->
  obj_get k (obj_spread o1 p) = obj_get k (obj_spread o2 p).
Proof.
  unfold obj_spread. revert o1 o2.
  induction p as [|[k0 v0] p IH]; intros o1 o2 H; simpl; [exact H|].
  apply IH. rewrite !obj_get_set. now rewrite H.
Qed.

Lemma obj_get_set_if_configured (k k' : string) (v : jsval) (o : jsobj) :
  String.eqb k k' = false ->
  obj_get k (Oauth2Scheme.set_if_configured k' v o) = obj_get k o.
Proof.
  intros Hne. unfold Oauth2Scheme.set_if_configured.
  destruct (truthy v); [|reflexivity]. now rewrite obj_get_set, Hne.
Qed.

Lemma obj_has_set_if_configured (k k' : string) (v : jsval) (o : jsobj) :
  String.eqb k k' = false ->
  obj_has k (Oauth2Scheme.set_if_configured k' v o) = obj_has k o.
Proof.
  intros Hne. unfold Oauth2Scheme.set_if_configured.
  destruct (truthy v); [|reflexivity]. now rewrite obj_has_set, Hne.
Qed.

Lemma obj_get_set_ne (k k' : string) (v : jsval) (o : jsobj) :
  String.eqb k k' = false -> obj_get k (obj_set k' v o) = obj_get k o.
Proof. intros H. now rewrite obj_get_set, H. Qed.

Lemma obj_has_set_ne (k k' : string) (v : jsval) (o : jsobj) :
  String.eqb k k' = false -> obj_has k (obj_set k' v o) = obj_has k o.
Proof. intros H. now rewrite obj_has_set, H. Qed.

Lemma obj_has_set_same (k : string) (v : jsval) (o : jsobj) :
  obj_has k (obj_set k v o) = true.
Proof. now rewrite obj_has_set, String.eqb_refl. Qed.

Create Rewrite HintDb obj.
#[local] Hint Rewrite obj_has_set_same : obj.
#[local] Hint Rewrite obj_get_set_ne obj_has_set_ne
  obj_get_set_if_configured obj_has_set_if_configured
  using reflexivity : obj.

Lemma prefix_cons_inv (a : ascii) (n s : string) :
  String.prefix (String a n) s = true ->
  exists s', s = String a s' /\ String.prefix n s' = true.
Proof.
  destruct s as [|b s]; simpl; [discriminate|].
  destruct (ascii_dec a b) as [->|]; [eauto | discriminate].
Qed.

(** A string that names [id_token] names [token]: the second test of the
    condition in [login] never decides. *)
Lemma includes_id_token (s : string) :
  includes "id_token" s = true -> includes "token" s = true.
Proof.
  induction s as [|c s IH].
  - simpl. discriminate.
  - change (includes "id_token" (String c s))
      with (String.prefix "id_token" (String c s) || includes "id_token" s).
    change (includes "token" (String c s))
      with (String.prefix "token" (String c s) || includes "token" s).
    intros H. apply orb_true_iff in H as [H|H].
    + apply prefix_cons_inv in H as (s1 & E1 & H). injection E1 as -> ->.
      apply prefix_cons_inv in H as (s2 & -> & H).
      apply prefix_cons_inv in H as (s3 & -> & H).
      apply prefix_cons_inv in H as (s4 & -> & H).
      apply prefix_cons_inv in H as (s5 & -> & H).
      apply prefix_cons_inv in H as (s6 & -> & H).
      apply prefix_cons_inv in H as (s7 & -> & H).
      apply prefix_cons_inv in H as (s8 & -> & H).
      simpl. destruct s8; reflexivity.
    + rewrite (IH H). apply orb_true_r.
Qed.

Lemma wants_nonce_eq (s : string) :
  includes "token" s || includes "id_token" s = includes "token" s.
Proof.
  destruct (includes "token" s) eqn:E; [reflexivity|]. simpl.
  destruct (includes "id_token" s) eqn:E'; [|reflexivity].
  apply includes_id_token in E'. congruence.
Qed.

Lemma request_parameters_nonce (this : Scheme) (_opts : LoginOptions) (w : World)
    (response_type : string) :
  effective_response_type this _opts = JStr response_type ->
  exists opts w',
    Oauth2Scheme.request_parameters this _opts w = (Returned opts, w') /\
    obj_get "response_type" opts = JStr response_type /\
    obj_has "nonce" opts
    = includes "token" response_type || obj_has "nonce" (login_params _opts).
Proof.
  intros Hrt. unfold Oauth2Scheme.request_parameters.
  unfold util_randomString, Oauth2Scheme.generateRandomString, getRandomValues, setUniversal.
  monad_unfold.
  assert (Hget : forall l,
             obj_get "response_type" l = responseType (options this) ->
             obj_get "response_type" (obj_spread l (login_params _opts))
             = JStr response_type).
  { intros l Hl. rewrite <- Hrt.
    unfold effective_response_type. apply obj_get_spread. exact Hl. }
  destruct (truthy (login_state _opts)); cbv beta iota.
  all: autorewrite with obj; rewrite Hget by reflexivity; cbv beta iota.
  all: rewrite wants_nonce_eq.
  all: destruct (includes "token" response_type); cbv beta iota.
  all: try (destruct (truthy (login_nonce _opts)); cbv beta iota).
  all: match goal with
       | |- context [if ?c then _ else _] => destruct c; cbv beta iota
       end.
  all: do 2 eexists; (split; [reflexivity|]).
  all: autorewrite with obj; try rewrite Hget by reflexivity.
  all: split; [reflexivity|]; try reflexivity.
  all: rewrite obj_has_spread; reflexivity.
Qed.




(** ** [login]: the popup *)

(** Building the parameters touches neither the popup reference nor the
    effects log. *)
Lemma request_parameters_frame (this : Scheme) (_opts : LoginOptions) (w : World) :
  let w' := snd (Oauth2Scheme.request_parameters this _opts w) in
  clientWindowReference w' = clientWindowReference w /\ trace w' = trace w.
Proof.
  unfold Oauth2Scheme.request_parameters.
  unfold util_randomString, Oauth2Scheme.generateRandomString, getRandomValues, setUniversal.
  monad_unfold.
  destruct (truthy (login_state _opts)); cbv beta iota.
  all: match goal with
       | |- context [match ?v with JStr _ => _ | _ => _ end] => destruct v
       end; cbv beta iota; try (split; reflexivity).
  all: match goal with
       | |- context [if ?c then _ else _] => destruct c; cbv beta iota
       end.
  all: try (destruct (truthy (login_nonce _opts)); cbv beta iota).
  all: match goal with
       | |- context [if ?c then _ else _] => destruct c; cbv beta iota
       end.
  all: split; reflexivity.
Qed.

(** What [login] does in popup mode, by the state of the popup reference. *)
Lemma login_popup (this : Scheme) (_opts : LoginOptions) (w : World)
    (opts : jsobj) (w1 : World) :
  Oauth2Scheme.request_parameters this _opts w = (Returned opts, w1) ->
  truthy (obj_get "clientWindow" opts) = true ->
  let url_ := endpoints_authorization (options this) +:+ "?"
              +:+ encodeQuery (platform this) opts in
  let features := Oauth2Scheme.clientWindowFeatures this
                    (obj_get "clientWindowWidth" opts)
                    (obj_get "clientWindowHeight" opts) in
  let o := fst (Oauth2Scheme.login this _opts w) in
  let w' := snd (Oauth2Scheme.login this _opts w) in
  match clientWindowReference w with
  | RefUndefined =>
      o = Thrown (TypeError "Cannot read properties of undefined (reading 'closed')") /\
      trace w' = trace w /\
      clientWindowReference w' = RefUndefined
  | RefWindow false =>
      o = Returned tt /\
      trace w' = trace w ++ [EvWindowFocus] /\
      clientWindowReference w' = RefWindow false
  | _ =>
      o = Returned tt /\
      trace w' = trace w ++ [EvWindowOpen url_ "oauth2-client-window" features;
                             EvAddEventListener; EvSetInterval] /\
      clientWindowReference w'
      = (if popup_blocked (platform this) then RefNull else RefWindow false)
  end.
Proof.
  intros Hrun Hpopup.
  pose proof (request_parameters_frame this _opts w) as [Hr Ht].
  rewrite Hrun in Hr, Ht. simpl in Hr, Ht.
  unfold Oauth2Scheme.login. monad_unfold. rewrite Hrun. cbv beta iota.
  rewrite Hpopup.
  assert (Hset : exists st,
             setUniversal (name (options this) +:+ ".state") (obj_get "state" opts) w1
             = (Returned tt, with_storage st w1)).
  { unfold setUniversal, modify. destruct (obj_get "state" opts); eauto. }
  destruct Hset as [st ->]. cbv beta iota.
  change (clientWindowReference (with_storage st w1)) with (clientWindowReference w1).
  rewrite Hr. destruct (clientWindowReference w) as [| |[|]]; cbv beta iota; simpl;
    rewrite ?Ht, <- ?app_assoc; repeat split; assumption.
Qed.

(** C8, on the code.  In popup mode, a scheme whose popup reference was
    never assigned (the state the constructor leaves, so the first popup
    login) does not open a window: the test [reference === null ||
    reference.closed] reads [closed] of [undefined], [login] throws a
    [TypeError], and the effects log is unchanged. *)
Theorem login_first_popup_throws (this : Scheme) (_opts : LoginOptions) (w : World)
    (opts : jsobj) (w1 : World) :
  Oauth2Scheme.request_parameters this _opts w = (Returned opts, w1) ->
  truthy (obj_get "clientWindow" opts) = true ->
  clientWindowReference w = RefUndefined ->
  exists msg w',
    Oauth2Scheme.login this _opts w = (Thrown (TypeError msg), w') /\
    requests_of (trace w') = requests_of (trace w) /\
    trace w' = trace w /\
    clientWindowReference w' = RefUndefined.
Proof.
  intros Hrun Hpopup Href.
  pose proof (login_popup this _opts w opts w1 Hrun Hpopup) as H.
  rewrite Href in H. simpl in H. destruct H as (Ho & Ht & Hc).
  destruct (Oauth2Scheme.login this _opts w) as [o w']. simpl in *. subst o.
  do 2 eexists. split; [reflexivity|]. rewrite Ht. auto.
Qed.

(** The first popup login of a fresh scheme instance. *)
Lemma login_first_popup_throws_witness :
  let this := Demo.scheme (Demo.with_clientWindow (JBool true) Demo.DEFAULTS)
                (HttpOk Demo.token_response) ∅ "" in
  let w := Demo.fresh in
  clientWindowReference w = RefUndefined /\
  exists msg w',
    Oauth2Scheme.login this no_login_options w = (Thrown (TypeError msg), w') /\
    requests_of (trace w') = requests_of (trace w) /\
    trace w' = trace w /\
    clientWindowReference w' = RefUndefined.
Proof.
  intros this w. split; [reflexivity|].
  destruct (Oauth2Scheme.request_parameters this no_login_options w) as [[opts|e] w1] eqn:Hrun.
  - apply (login_first_popup_throws this no_login_options w opts w1 Hrun).
    + vm_compute in Hrun. injection Hrun as <- _. reflexivity.
    + reflexivity.
  - vm_compute in Hrun. discriminate Hrun.
Defined.

(** A reference that is [null] or a closed window: a named popup is opened.
    A live window: it is focused and none is opened. *)
Lemma login_popup_open_or_focus (this : Scheme) (_opts : LoginOptions) (w : World)
    (opts : jsobj) (w1 : World) :
  Oauth2Scheme.request_parameters this _opts w = (Returned opts, w1) ->
  truthy (obj_get "clientWindow" opts) = true ->
  let w' := snd (Oauth2Scheme.login this _opts w) in
  (clientWindowReference w = RefNull \/ clientWindowReference w = RefWindow true ->
   exists u f, trace w' = trace w ++ [EvWindowOpen u "oauth2-client-window" f;
                                      EvAddEventListener; EvSetInterval]) /\
  (clientWindowReference w = RefWindow false ->
   trace w' = trace w ++ [EvWindowFocus]).
Proof.
  intros Hrun Hpopup w'.
  pose proof (login_popup this _opts w opts w1 Hrun Hpopup) as H. simpl in H.
  split.
  - intros [E|E]; rewrite E in H; destruct H as (_ & Ht & _); eauto.
  - intros E. rewrite E in H. now destruct H as (_ & Ht & _).
Qed.

(** ** The refresh controller *)

Import RefreshController.

(** [refreshTokens] is its part before the [await], then its part after it
    on the answer of the token endpoint. *)
Lemma refreshTokens_split (this : Scheme) (w : World) :
  Oauth2Scheme.refreshTokens this w
  = match refreshTokens_begin this w with
    | (Returned (Some r), w1) => refreshTokens_resume this (http (platform this) r) w1
    | (Returned None, w1) => (Returned None, w1)
    | (Thrown e, w1) => (Thrown e, w1)
    end.
Proof.
  unfold Oauth2Scheme.refreshTokens, refreshTokens_begin, refreshTokens_resume,
    RefreshToken_get, RefreshToken_status_expired, RequestHandler_clearHeader,
    auth_request, auth_callOnError.
  monad_unfold.
  destruct (truthy (of_opt (value (refreshToken w)))); cbv beta iota; [|reflexivity].
  change (negb true) with false. cbv beta iota.
  destruct (store_expired (now w) (refreshToken w)); cbv beta iota.
  - destruct (Oauth2Scheme.auth_reset _) as [[[]|e] w1]; reflexivity.
  - simpl. destruct (http (platform this) _); reflexivity.
Qed.

(** The part before the [await] sends one request when it suspends and
    none when it ends. *)
Lemma begin_requests (this : Scheme) (w : World) :
  requests_of (trace (snd (refreshTokens_begin this w)))
  = requests_of (trace w)
    ++ match fst (refreshTokens_begin this w) with
       | Returned (Some r) => [r]
       | _ => []
       end.
Proof.
  unfold refreshTokens_begin, RefreshToken_get, RefreshToken_status_expired,
    RequestHandler_clearHeader, Oauth2Scheme.auth_reset, Oauth2Scheme.reset,
    auth_setUser, Token_reset, RefreshToken_reset, RequestHandler_reset.
  monad_unfold.
  destruct (truthy (of_opt (value (refreshToken w)))); cbv beta iota.
  - change (negb true) with false. cbv beta iota.
    destruct (store_expired (now w) (refreshToken w)); simpl;
      autorewrite with log; simpl; autorewrite with log; reflexivity.
  - simpl. now rewrite app_nil_r.
Qed.

Lemma resume_requests (this : Scheme) (answer : HttpOutcome) (w : World) :
  requests_of (trace (snd (refreshTokens_resume this answer w))) = requests_of (trace w).
Proof.
  unfold refreshTokens_resume, Oauth2Scheme.updateTokens, Token_set, RefreshToken_set,
    auth_callOnError.
  monad_unfold.
  destruct answer as [response|error]; simpl.
  - destruct (truthy (getProp response _)); simpl;
      autorewrite with log; simpl; autorewrite with log; reflexivity.
  - autorewrite with log; simpl; autorewrite with log; reflexivity.
Qed.


Lemma invariant_initial (w0 : World) : controller_invariant w0 (initial w0).
Proof.
  split; simpl.
  - lia.
  - discriminate.
  - lia.
  - intros operation [r Hr]. rewrite lookup_empty in Hr. discriminate.
  - tauto.
Qed.

Lemma invariant_handleRefresh (this : Scheme) (w0 : World) (caller : nat) (s : State) :
  controller_invariant w0 s -> controller_invariant w0 (handleRefresh this caller s).
Proof.
  intros [Hreq Hin Hset Hbound Hhand]. unfold handleRefresh.
  destruct (inflight s) as [[operation phase]|] eqn:Hfl.
  - (* an operation is pending: only the list of callers grows *)
    split; simpl; try assumption.
    intros c op' [[= <- <-]|Hc]; [|eauto].
    destruct (Hin operation phase eq_refl) as [-> _]. lia.
  - (* no operation is pending: a new one starts *)
    pose proof (begin_requests this (world s)) as Hb.
    destruct (refreshTokens_begin this (world s)) as [o w1] eqn:Hbegin.
    simpl in Hb.
    split; simpl.
    + unfold requests_issued in *. rewrite Hb, length_app.
      destruct o as [[r|]|e]; simpl; lia.
    + intros op' ph [= <- _]. split; [reflexivity|].
      destruct (settled s !! started s) eqn:E; [|reflexivity].
      assert (started s < started s) by (apply Hbound; eauto). lia.
    + intros op' Hlt. destruct (decide (op' = started s)) as [->|Hne]; [eauto|].
      left. destruct (Hset op' ltac:(lia)) as [H|[ph H]]; [exact H|congruence].
    + intros op' H. apply Hbound in H. lia.
    + intros c op' [[= <- <-]|Hc]; [lia|]. apply Hhand in Hc. lia.
Qed.

Lemma invariant_respond (this : Scheme) (w0 : World) (answer : HttpOutcome) (s s' : State) :
  respond this answer s = Some s' ->
  controller_invariant w0 s -> controller_invariant w0 s'.
Proof.
  unfold respond. intros Hstep [Hreq Hin Hset Hbound Hhand].
  destruct (inflight s) as [[operation [r|r]]|] eqn:Hfl; try discriminate.
  pose proof (resume_requests this answer (world s)) as Hr.
  destruct (refreshTokens_resume this answer (world s)) as [o w1].
  injection Hstep as <-. simpl in Hr.
  split; simpl; try assumption.
  - unfold requests_issued in *. simpl. rewrite Hr. exact Hreq.
  - intros op' ph [= <- _]. exact (Hin _ _ eq_refl).
  - intros op' Hlt. destruct (Hset op' Hlt) as [H|[ph H]]; [now left|].
    right. injection H as <- _. eauto.
Qed.

Lemma invariant_complete (w0 : World) (s s' : State) :
  complete s = Some s' ->
  controller_invariant w0 s -> controller_invariant w0 s'.
Proof.
  unfold complete. intros Hstep [Hreq Hin Hset Hbound Hhand].
  destruct (inflight s) as [[operation [r|r]]|] eqn:Hfl; try discriminate.
  injection Hstep as <-.
  destruct (Hin _ _ eq_refl) as [Hstarted Hnone].
  split; simpl; try assumption.
  - discriminate.
  - intros op' Hlt. left. destruct (decide (op' = operation)) as [->|Hne].
    + rewrite lookup_insert_eq. eauto.
    + rewrite lookup_insert_ne by congruence.
      destruct (Hset op' Hlt) as [H|[ph H]]; [exact H|].
      congruence.
  - intros op' H. destruct (decide (op' = operation)) as [->|Hne]; [lia|].
    rewrite lookup_insert_ne in H by congruence. now apply Hbound.
Qed.

(** The invariant holds all along every run. *)
Lemma invariant_steps (this : Scheme) (w0 : World) (ls : list Label) (s : State) :
  steps this (initial w0) ls s -> controller_invariant w0 s.
Proof.
  remember (initial w0) as s0 eqn:E.
  induction 1 as [s|s ls s' l s'' Hsteps IH Hstep]; subst.
  - apply invariant_initial.
  - specialize (IH eq_refl). inversion Hstep; subst.
    + now apply invariant_handleRefresh.
    + eapply invariant_respond; eassumption.
    + eapply invariant_complete; eassumption.
Qed.

Lemma steps_cons (this : Scheme) (s s' s'' : State) (l : Label) (ls : list Label) :
  step this s l s' -> steps this s' ls s'' -> steps this s (l :: ls) s''.
Proof.
  intros Hstep Hsteps. induction Hsteps as [s'|s' ls s1 l' s2 Hsteps IH Hlast].
  - apply (steps_snoc this s [] s l s'); [apply steps_nil | exact Hstep].
  - change (l :: ls ++ [l']) with ((l :: ls) ++ [l']).
    eapply steps_snoc; [apply IH; exact Hstep | exact Hlast].
Qed.

Lemma step_run_label (this : Scheme) (l : Label) (s : State) :
  enabled this l s = true -> step this s l (run_label this l s).
Proof.
  destruct l as [caller|answer|]; simpl.
  - intros _. apply step_call.
  - destruct (respond this answer s) eqn:E; [|discriminate].
    intros _. now apply step_answer.
  - destruct (complete s) eqn:E; [|discriminate].
    intros _. now apply step_complete.
Qed.

(** The run computed by [run] is a run of the step relation. *)
Lemma steps_run (this : Scheme) (ls : list Label) (s : State) :
  all_enabled this ls s = true -> steps this s ls (run this ls s).
Proof.
  revert s. induction ls as [|l ls IH]; intros s; simpl.
  - intros _. apply steps_nil.
  - intros H. apply andb_true_iff in H as [Hl Hls].
    eapply steps_cons; [apply step_run_label; exact Hl | apply IH; exact Hls].
Qed.

Lemma operation_of_handed (caller : nat) (s : State) (operation : nat) :
  operation_of caller s = Some operation -> In (caller, operation) (handed s).
Proof.
  unfold operation_of. destruct (find _ (handed s)) as [[c op]|] eqn:E; [|discriminate].
  simpl. intros [= <-]. apply find_some in E as [Hin Hc].
  simpl in Hc. apply Nat.eqb_eq in Hc. now subst.
Qed.


(** One refresh through the controller, answered by the token endpoint of
    the platform, is one call of [refreshTokens]: same world, and the caller
    observes its outcome. *)
Lemma controller_runs_refreshTokens (this : Scheme) (w w1 : World) (r : Request)
    (caller : nat) :
  refreshTokens_begin this w = (Returned (Some r), w1) ->
  let s := run this [Call caller; Answer (http (platform this) r); Complete] (initial w) in
  world s = snd (Oauth2Scheme.refreshTokens this w) /\
  inflight s = None /\
  observes caller s
  = Some (settlement (fun x => x) (fst (Oauth2Scheme.refreshTokens this w))).
Proof.
  intros Hbegin. rewrite refreshTokens_split, Hbegin.
  unfold run, initial, observes, operation_of. simpl.
  unfold handleRefresh. simpl. rewrite Hbegin. simpl.
  unfold respond. simpl.
  destruct (refreshTokens_resume this (http (platform this) r) w1) as [o w2].
  simpl. rewrite Nat.eqb_refl. simpl. rewrite lookup_insert_eq. auto.
Qed.


(** ** [pkceChallengeFromVerifier] *)

Lemma pkce_plain (v : string) : Oauth2Scheme.pkceChallengeFromVerifier v false = v.
Proof. reflexivity. Qed.

Lemma pkce_hashed (v : string) :
  Oauth2Scheme.pkceChallengeFromVerifier v true
  = Oauth2Scheme.base64UrlEncode (SHA256.digest (TextEncoder_encode v)).
Proof. reflexivity. Qed.

Lemma contains_replaced (c d : ascii) (s : string) :
  c <> d -> contains_char c (replace_all c d s) = false.
Proof.
  intros Hne. induction s as [|a s IH]; simpl; [reflexivity|].
  rewrite IH, orb_false_r.
  destruct (Ascii.eqb_spec a c) as [->|Hac].
  - apply Ascii.eqb_neq. congruence.
  - now apply Ascii.eqb_neq.
Qed.

Lemma contains_replace_other (x c d : ascii) (s : string) :
  x <> d -> contains_char x s = false -> contains_char x (replace_all c d s) = false.
Proof.
  intros Hne. induction s as [|a s IH]; simpl; [reflexivity|].
  intros H. apply orb_false_iff in H as [Ha Hs].
  rewrite (IH Hs), orb_false_r.
  destruct (Ascii.eqb a c); [|exact Ha].
  apply Ascii.eqb_neq. congruence.
Qed.

Lemma strip_trailing_cons (c a : ascii) (s : string) :
  strip_trailing c (String a s)
  = match strip_trailing c s with
    | EmptyString => if Ascii.eqb a c then EmptyString else String a EmptyString
    | r => String a r
    end.
Proof. reflexivity. Qed.

Lemma contains_stripped (x c : ascii) (s : string) :
  contains_char x s = false -> contains_char x (strip_trailing c s) = false.
Proof.
  induction s as [|a s IH]; [reflexivity|].
  rewrite strip_trailing_cons. simpl.
  intros H. apply orb_false_iff in H as [Ha Hs]. specialize (IH Hs).
  destruct (strip_trailing c s) as [|b r].
  - destruct (Ascii.eqb a c); simpl; [reflexivity | now rewrite Ha].
  - change (contains_char x (String a (String b r)))
      with (Ascii.eqb a x || contains_char x (String b r)).
    now rewrite Ha, IH.
Qed.

Lemma stripped_last (c : ascii) (s : string) :
  last_char (strip_trailing c s) <> Some c.
Proof.
  induction s as [|a s IH]; [discriminate|].
  rewrite strip_trailing_cons.
  destruct (strip_trailing c s) as [|b r].
  - destruct (Ascii.eqb_spec a c); simpl; congruence.
  - exact IH.
Qed.

(** The encoding is URL-safe whatever the bytes are. *)
Lemma base64UrlEncode_url_safe (bs : list Z) :
  contains_char "+" (Oauth2Scheme.base64UrlEncode bs) = false /\
  contains_char "/" (Oauth2Scheme.base64UrlEncode bs) = false /\
  last_char (Oauth2Scheme.base64UrlEncode bs) <> Some "="%char.
Proof.
  unfold Oauth2Scheme.base64UrlEncode. split; [|split].
  - apply contains_stripped, contains_replace_other; [discriminate|].
    apply contains_replaced. discriminate.
  - apply contains_stripped, contains_replaced. discriminate.
  - apply stripped_last.
Qed.

(** The challenge of the example in RFC 7636, appendix B. *)
Example pkce_rfc7636 :
  Oauth2Scheme.pkceChallengeFromVerifier "dBjftJeZ4CVP-mB92K27uhbUJU1p1r_wW1gFWFOEjXk" true
  = "E9Melhoa2OwvFrEMTJguCHaoeK1t8URWbuGJSstw-cM".
Proof. vm_compute. reflexivity. Qed.

Lemma digest_length (msg : list Z) : length (SHA256.digest msg) = 32.
Proof.
  unfold SHA256.digest.
  generalize (fold_left SHA256.compress
                (SHA256.chunks 64 (length (SHA256.pad msg) / 64) (SHA256.pad msg))
                SHA256.initial).
  intros r. reflexivity.
Qed.

Lemma replace_all_length (c d : ascii) (s : string) :
  String.length (replace_all c d s) = String.length s.
Proof. induction s as [|a s IH]; simpl; [reflexivity | now rewrite IH]. Qed.

Lemma last_char_replace_all (c d : ascii) (s : string) :
  last_char (replace_all c d s)
  = (fun a => if Ascii.eqb a c then d else a) <$> last_char s.
Proof.
  induction s as [|a s IH]; [reflexivity|].
  destruct s as [|b s]; [reflexivity|]. exact IH.
Qed.

Lemma drop_last_replace_all (c d : ascii) (s : string) :
  drop_last (replace_all c d s) = replace_all c d (drop_last s).
Proof.
  induction s as [|a s IH]; [reflexivity|].
  destruct s as [|b s]; [reflexivity|].
  change (drop_last (replace_all c d (String a (String b s))))
    with (String (if Ascii.eqb a c then d else a)
                 (drop_last (replace_all c d (String b s)))).
  rewrite IH. reflexivity.
Qed.

Lemma length_drop_last (s : string) :
  String.length (drop_last s) = String.length s - 1.
Proof.
  induction s as [|a s IH]; [reflexivity|].
  destruct s as [|b s]; [reflexivity|].
  change (String.length (drop_last (String a (String b s))))
    with (S (String.length (drop_last (String b s)))).
  rewrite IH. simpl. lia.
Qed.

(** A string that ends with exactly one [c] loses just that character. *)
Lemma strip_trailing_single (c : ascii) (s : string) :
  last_char s = Some c ->
  (exists a, last_char (drop_last s) = Some a /\ a <> c) ->
  strip_trailing c s = drop_last s.
Proof.
  induction s as [|a s IH]; [discriminate|].
  destruct s as [|b s].
  - intros _ (x & Hx & _). discriminate.
  - intros Hlast (x & Hx & Hne).
    change (last_char (String a (String b s))) with (last_char (String b s)) in Hlast.
    rewrite strip_trailing_cons.
    change (drop_last (String a (String b s)))
      with (String a (drop_last (String b s))) in *.
    destruct s as [|b' s].
    + simpl in Hlast, Hx. injection Hlast as ->. injection Hx as ->.
      simpl. rewrite Ascii.eqb_refl.
      apply Ascii.eqb_neq in Hne. now rewrite Hne.
    + rewrite IH; [reflexivity | exact Hlast |].
      exists x. split; [|exact Hne]. exact Hx.
Qed.

Lemma b64_char_not_pad (i : Z) : b64_char i <> "="%char.
Proof.
  unfold b64_char.
  destruct (nth_in_or_default (Z.to_nat i) b64_alphabet "A"%char) as [Hin | Heq];
    [|rewrite Heq; discriminate].
  revert Hin. generalize (nth (Z.to_nat i) b64_alphabet "A"%char). intros a Hin.
  simpl in Hin.
  repeat (destruct Hin as [<-|Hin]; [discriminate|]). destruct Hin.
Qed.

Lemma url_char_not_pad (a : ascii) : a <> "="%char -> url_char a <> "="%char.
Proof.
  intros Ha. unfold url_char.
  destruct (Ascii.eqb a "+"); simpl; [discriminate|].
  destruct (Ascii.eqb a "/"); [discriminate | exact Ha].
Qed.

Lemma btoa_32 (bs : list Z) :
  length bs = 32 ->
  String.length (btoa bs) = 44 /\
  last_char (btoa bs) = Some "="%char /\
  exists i, last_char (drop_last (btoa bs)) = Some (b64_char i).
Proof.
  intros Hlen.
  do 32 (destruct bs as [|? bs]; [discriminate Hlen|]).
  destruct bs; [|discriminate Hlen].
  split; [reflexivity|]. split; [reflexivity|]. eexists. reflexivity.
Qed.

(** Thirty-two bytes encode to 43 characters. *)
Lemma base64UrlEncode_32 (bs : list Z) :
  length bs = 32 -> String.length (Oauth2Scheme.base64UrlEncode bs) = 43.
Proof.
  intros Hlen. destruct (btoa_32 bs Hlen) as (Hl & Hlast & i & Hprev).
  unfold Oauth2Scheme.base64UrlEncode.
  rewrite strip_trailing_single.
  - rewrite length_drop_last, !replace_all_length, Hl. reflexivity.
  - rewrite !last_char_replace_all, Hlast. reflexivity.
  - rewrite !drop_last_replace_all, !last_char_replace_all, Hprev.
    eexists. split; [reflexivity|].
    apply (url_char_not_pad (b64_char i)), b64_char_not_pad.
Qed.

Lemma pkce_hashed_length (v : string) :
  String.length (Oauth2Scheme.pkceChallengeFromVerifier v true) = 43.
Proof. rewrite pkce_hashed. apply base64UrlEncode_32, digest_length. Qed.

(** The challenge differs from every verifier that is not 43 characters
    long, so from every verifier [generateRandomString] makes. *)
Lemma pkce_hashed_differs (v : string) :
  String.length v <> 43 -> Oauth2Scheme.pkceChallengeFromVerifier v true <> v.
Proof.
  intros Hlen E. apply Hlen. rewrite <- E at 1. apply pkce_hashed_length.
Qed.

Lemma returned_inj {A : Type} (a b : A) (w1 w2 : World) :
  (Returned a, w1) = (Returned b, w2) -> a = b.
Proof. intros H. now inversion H. Qed.

Lemma pkce_hashed_differs_generated (this : Scheme) (w : World) (v : string) (w' : World) :
  Oauth2Scheme.generateRandomString this w = (Returned v, w') ->
  Oauth2Scheme.pkceChallengeFromVerifier v true <> v.
Proof.
  intros Hgen. apply pkce_hashed_differs.
  rewrite generateRandomString_eq in Hgen. apply returned_inj in Hgen. subst v.
  set (words := map (fun i => to_uint32 (crypto_random (platform this) (crypto_cursor w + i)))
                    (seq 0 28)).
  assert (Hpos : Forall (fun x => 0 <= x)%Z words).
  { apply Forall_forall. intros x Hin.
    apply list_elem_of_In, in_map_iff in Hin as (i & <- & _).
    unfold to_uint32. apply Z.mod_pos_bound. lia. }
  destruct (hex_elements_decode words Hpos) as [_ Hl].
  rewrite Hl. unfold words. rewrite length_map, length_seq. discriminate.
Qed.

(** * More of the scheme *)

(** ** [#handleCallback]: the guards, the code verifier, the fragment *)

(** X1.  Off the callback route, or on the server, [#handleCallback] returns
    at once and leaves the world as it is: the stored state is not consumed
    and no token is read from the address. *)
Theorem handleCallback_elsewhere (this : Scheme) (w : World) :
  handles_callback this = false ->
  Oauth2Scheme.handleCallback this w = (Returned JUndefined, w).
Proof.
  unfold handles_callback, Oauth2Scheme.handleCallback. intros H.
  destruct (redirect_callback (auth_options this)) as [callback|].
  - destruct (String.eqb _ _); simpl in *; [|reflexivity].
    destruct (process_server (platform this)); [reflexivity|discriminate].
  - destruct (process_server (platform this)); [reflexivity|discriminate].
Qed.

(** On [/dashboard] a callback address with a forged state changes nothing. *)
Lemma handleCallback_elsewhere_witness :
  let this := elsewhere Demo.DEFAULTS (HttpOk Demo.token_response)
                ∅ "#access_token=T0&state=forged" in
  let w := Demo.world 0 Demo.no_token Demo.no_token
             {[ "oauth2.state" := JStr "xyz" ]} RefNull in
  handles_callback this = false /\
  Oauth2Scheme.handleCallback this w = (Returned JUndefined, w).
Proof.
  intros this w. split; [reflexivity|].
  apply (handleCallback_elsewhere this w). reflexivity.
Defined.

(** The state check lets the callback through and no code exchange runs:
    the token of the merged parameters is written. *)
Lemma handleCallback_accepted_no_exchange (this : Scheme) (w : World) :
  handles_callback this = true ->
  state_accepted this w = true ->
  exchanges_code this = false ->
  usable (callback_token this) = true ->
  let w' := snd (Oauth2Scheme.handleCallback this w) in
  value (token w') = stored_value this (callback_token this) /\
  tokens_set (trace w') = tokens_set (trace w) ++ [callback_token this] /\
  requests_of (trace w') = requests_of (trace w) /\
  storage w' = delete (state_key this) (storage w).
Proof.
  intros Hcb Hacc Hex Huse.
  destruct (handles_callback_guards this Hcb) as [Hroute Hserver].
  unfold state_accepted in Hacc. apply negb_true_iff in Hacc.
  unfold Oauth2Scheme.handleCallback. rewrite Hroute, Hserver.
  unfold getUniversal, setUniversal, auth_request, Token_set, RefreshToken_set, auth_redirect.
  run.
  fold (state_key this) (parsedQuery this). fold (callback_param this "state").
  rewrite Hacc. simpl.
  fold (callback_param this "code").
  change (strict_eq (responseType (options this)) (JStr "code")
          && truthy (callback_param this "code")) with (exchanges_code this).
  rewrite Hex. simpl.
  fold (callback_param this (token_property (options this))). fold (callback_token this).
  rewrite (usable_inv _ Huse).
  split_ifs; autorewrite with log; simpl; autorewrite with log; auto.
Qed.

Lemma state_key_not_verifier_key (this : Scheme) : state_key this <> verifier_key this.
Proof.
  unfold state_key, verifier_key. intros E.
  apply (inj (String.app (name (options this)))) in E. discriminate E.
Qed.

(** The code exchange of an accepted callback: the request it sends and
    what it does to the storage. *)
Lemma handleCallback_exchange (this : Scheme) (w : World) :
  handles_callback this = true ->
  state_accepted this w = true ->
  exchanges_code this = true ->
  let w' := snd (Oauth2Scheme.handleCallback this w) in
  let codeVerifier :=
    if uses_pkce this then default JUndefined (storage w !! verifier_key this)
    else JUndefined in
  requests_of (trace w')
  = requests_of (trace w)
    ++ [Oauth2Scheme.exchange_request this (callback_param this "code") codeVerifier] /\
  storage w'
  = if uses_pkce this
    then delete (verifier_key this) (delete (state_key this) (storage w))
    else delete (state_key this) (storage w).
Proof.
  intros Hcb Hacc Hex.
  destruct (handles_callback_guards this Hcb) as [Hroute Hserver].
  unfold state_accepted in Hacc. apply negb_true_iff in Hacc.
  pose proof (state_key_not_verifier_key this) as Hkeys.
  unfold Oauth2Scheme.handleCallback. rewrite Hroute, Hserver.
  unfold getUniversal, setUniversal, auth_request, Token_set, RefreshToken_set, auth_redirect.
  run.
  fold (state_key this) (verifier_key this) (parsedQuery this).
  fold (callback_param this "state"). rewrite Hacc. simpl.
  fold (callback_param this "code").
  change (strict_eq (responseType (options this)) (JStr "code")
          && truthy (callback_param this "code")) with (exchanges_code this).
  rewrite Hex. simpl.
  change (truthy (codeChallengeMethod (options this))
          && negb (strict_eq (codeChallengeMethod (options this)) (JStr "implicit")))
    with (uses_pkce this).
  destruct (uses_pkce this); simpl.
  all: match goal with
       | |- context [http ?p ?r] => destruct (http p r) as [response|error]
       end; simpl.
  all: split_ifs; autorewrite with log; simpl; autorewrite with log.
  all: rewrite ?(lookup_delete_ne _ _ _ Hkeys); split; reflexivity.
Qed.

(** X2.  When the authorization-code exchange runs, one request is posted to
    the token endpoint with the code of the callback.  With PKCE in use the
    stored code verifier goes out as [code_verifier] and is deleted from
    storage, whether the exchange succeeds or fails; without PKCE the
    [code_verifier] of the request is [undefined] and storage loses the state
    only. *)
Theorem handleCallback_verifier_single_use (this : Scheme) (w : World) :
  handles_callback this = true ->
  state_accepted this w = true ->
  exchanges_code this = true ->
  let w' := snd (Oauth2Scheme.handleCallback this w) in
  exists r,
    requests_of (trace w') = requests_of (trace w) ++ [r] /\
    method r = "post" /\
    url r = endpoints_token (options this) /\
    obj_get "code" (body r) = callback_param this "code" /\
    if uses_pkce this then
      obj_get "code_verifier" (body r)
      = default JUndefined (storage w !! verifier_key this) /\
      storage w' = delete (verifier_key this) (delete (state_key this) (storage w)) /\
      storage w' !! verifier_key this = None
    else
      obj_get "code_verifier" (body r) = JUndefined /\
      storage w' = delete (state_key this) (storage w).
Proof.
  intros Hcb Hacc Hex w'.
  destruct (handleCallback_exchange this w Hcb Hacc Hex) as [Hreq Hsto].
  fold w' in Hreq, Hsto.
  eexists. split; [exact Hreq|].
  do 3 (split; [reflexivity|]).
  destruct (uses_pkce this).
  - split; [reflexivity|]. split; [exact Hsto|].
    rewrite Hsto. apply lookup_delete_eq.
  - split; [reflexivity | exact Hsto].
Qed.

(** The code flow with [S256]: verifier [v1] is stored, the callback brings
    a code, and the token endpoint refuses it. *)
Lemma handleCallback_verifier_single_use_witness :
  let this := Demo.scheme
                (Demo.with_codeChallengeMethod (JStr "S256")
                   (Demo.with_responseType (JStr "code") Demo.DEFAULTS))
                (HttpFail "invalid_grant") {[ "code" := JStr "abc" ]} "" in
  let w := Demo.world 0 Demo.no_token Demo.no_token
             {[ "oauth2.pkce_code_verifier" := JStr "v1" ]} RefNull in
  let w' := snd (Oauth2Scheme.handleCallback this w) in
  handles_callback this = true /\
  state_accepted this w = true /\
  exchanges_code this = true /\
  uses_pkce this = true /\
  exists r,
    requests_of (trace w') = requests_of (trace w) ++ [r] /\
    obj_get "code_verifier" (body r) = JStr "v1" /\
    storage w' !! verifier_key this = None.
Proof.
  intros this w w'.
  assert (H1 : handles_callback this = true) by reflexivity.
  assert (H2 : state_accepted this w = true) by (vm_compute; reflexivity).
  assert (H3 : exchanges_code this = true) by (vm_compute; reflexivity).
  repeat (split; [assumption || reflexivity|]).
  destruct (handleCallback_verifier_single_use this w H1 H2 H3)
    as (r & Hr & _ & _ & _ & Hv).
  exists r. split; [exact Hr|].
  change (uses_pkce this) with true in Hv. destruct Hv as (Hv & _ & Hgone).
  split; [|exact Hgone]. rewrite Hv. vm_compute. reflexivity.
Defined.



(** X4.  A state value is consumed by the first callback that sees it, and
    with no state stored the check lets everything through: the same
    callback address handled a second time is accepted again and its token
    is written a second time. *)
Theorem handleCallback_replay_accepted (this : Scheme) (w : World) (stored : jsval) :
  handles_callback this = true ->
  storage w !! state_key this = Some stored ->
  truthy stored = true ->
  callback_param this "state" = stored ->
  exchanges_code this = false ->
  usable (callback_token this) = true ->
  let w1 := snd (Oauth2Scheme.handleCallback this w) in
  let w2 := snd (Oauth2Scheme.handleCallback this w1) in
  storage w1 !! state_key this = None /\
  state_accepted this w1 = true /\
  tokens_set (trace w2)
  = tokens_set (trace w) ++ [callback_token this; callback_token this].
Proof.
  intros Hcb Hst Htr Hmatch Hex Huse w1 w2.
  assert (Hacc : state_accepted this w = true).
  { unfold state_accepted. rewrite Hst, Hmatch. simpl.
    unfold strict_eq. rewrite bool_decide_eq_true_2 by reflexivity.
    now rewrite andb_false_r. }
  destruct (handleCallback_accepted_no_exchange this w Hcb Hacc Hex Huse)
    as (_ & Ht1 & _ & Hs1).
  fold w1 in Ht1, Hs1.
  assert (Hgone : storage w1 !! state_key this = None)
    by (rewrite Hs1; apply lookup_delete_eq).
  assert (Hacc1 : state_accepted this w1 = true)
    by (unfold state_accepted; now rewrite Hgone).
  destruct (handleCallback_accepted_no_exchange this w1 Hcb Hacc1 Hex Huse)
    as (_ & Ht2 & _).
  fold w2 in Ht2. repeat split; [assumption..|].
  rewrite Ht2, Ht1, <- app_assoc. reflexivity.
Qed.

(** The address [#access_token=T0&state=xyz] handled twice with [xyz]
    stored once. *)
Lemma handleCallback_replay_accepted_witness :
  let this := Demo.scheme Demo.DEFAULTS (HttpOk Demo.token_response)
                ∅ "#access_token=T0&state=xyz" in
  let w := Demo.world 0 Demo.no_token Demo.no_token
             {[ "oauth2.state" := JStr "xyz" ]} RefNull in
  let w1 := snd (Oauth2Scheme.handleCallback this w) in
  let w2 := snd (Oauth2Scheme.handleCallback this w1) in
  handles_callback this = true /\
  storage w !! state_key this = Some (JStr "xyz") /\
  truthy (JStr "xyz") = true /\
  callback_param this "state" = JStr "xyz" /\
  exchanges_code this = false /\
  usable (callback_token this) = true /\
  storage w1 !! state_key this = None /\
  state_accepted this w1 = true /\
  tokens_set (trace w2) = [JStr "T0"; JStr "T0"].
Proof.
  intros this w w1 w2.
  assert (H1 : handles_callback this = true) by reflexivity.
  assert (H2 : storage w !! state_key this = Some (JStr "xyz")) by (vm_compute; reflexivity).
  assert (H3 : truthy (JStr "xyz") = true) by reflexivity.
  assert (H4 : callback_param this "state" = JStr "xyz") by (vm_compute; reflexivity).
  assert (H5 : exchanges_code this = false) by (vm_compute; reflexivity).
  assert (H6 : usable (callback_token this) = true) by (vm_compute; reflexivity).
  repeat (split; [assumption|]).
  exact (handleCallback_replay_accepted this w (JStr "xyz") H1 H2 H3 H4 H5 H6).
Defined.

(** ** [login]: what it stores and what it leaves alone *)

(** Building the parameters leaves the session alone. *)
Lemma request_parameters_session (this : Scheme) (_opts : LoginOptions) (w : World) :
  let w' := snd (Oauth2Scheme.request_parameters this _opts w) in
  token w' = token w /\ refreshToken w' = refreshToken w /\ user w' = user w /\
  authorization_header w' = authorization_header w.
Proof.
  unfold Oauth2Scheme.request_parameters.
  unfold util_randomString, Oauth2Scheme.generateRandomString, getRandomValues, setUniversal.
  monad_unfold.
  destruct (truthy (login_state _opts)); cbv beta iota.
  all: match goal with
       | |- context [match ?v with JStr _ => _ | _ => _ end] => destruct v
       end; cbv beta iota; try (repeat split; reflexivity).
  all: match goal with
       | |- context [if ?c then _ else _] => destruct c; cbv beta iota
       end.
  all: try (destruct (truthy (login_nonce _opts)); cbv beta iota).
  all: match goal with
       | |- context [if ?c then _ else _] => destruct c; cbv beta iota
       end.
  all: repeat split; reflexivity.
Qed.

(** After the parameters are built, [login] stores the state and
    navigates; only the storage, the popup reference and the log change. *)
Lemma login_after_parameters (this : Scheme) (_opts : LoginOptions) (w : World)
    (opts : jsobj) (w1 : World) :
  Oauth2Scheme.request_parameters this _opts w = (Returned opts, w1) ->
  let w' := snd (Oauth2Scheme.login this _opts w) in
  storage w' !! state_key this = kept (obj_get "state" opts) /\
  (forall k, k <> state_key this -> storage w' !! k = storage w1 !! k) /\
  token w' = token w1 /\ refreshToken w' = refreshToken w1 /\ user w' = user w1 /\
  authorization_header w' = authorization_header w1 /\
  requests_of (trace w') = requests_of (trace w1).
Proof.
  intros Hrun. unfold Oauth2Scheme.login. monad_unfold. rewrite Hrun. cbv beta iota.
  fold (state_key this).
  assert (Hset : exists st,
             setUniversal (state_key this) (obj_get "state" opts) w1
             = (Returned tt, with_storage st w1) /\
             st (storage w1) !! state_key this = kept (obj_get "state" opts) /\
             forall k, k <> state_key this -> st (storage w1) !! k = storage w1 !! k).
  { unfold setUniversal, modify.
    destruct (obj_get "state" opts); eexists; (split; [reflexivity|]); simpl;
      rewrite ?lookup_delete_eq, ?lookup_insert_eq; (split; [reflexivity|]);
      intros k Hk; rewrite ?lookup_delete_ne, ?lookup_insert_ne by congruence;
      reflexivity. }
  destruct Hset as (st & -> & Hst & Hother). cbv beta iota.
  destruct (truthy (obj_get "clientWindow" opts)); cbv beta iota.
  - change (clientWindowReference (with_storage st w1)) with (clientWindowReference w1).
    destruct (clientWindowReference w1) as [| |[|]]; cbv beta iota; simpl;
      autorewrite with log; simpl; autorewrite with log; auto 10.
  - simpl. autorewrite with log; simpl; autorewrite with log; auto 10.
Qed.

(** X5.  [login] sends no request and leaves the session alone: the token
    stores, the user and the authorization header are as before, whether it
    navigates, opens or focuses a popup, or throws. *)
Theorem login_leaves_session (this : Scheme) (_opts : LoginOptions) (w : World) :
  let w' := snd (Oauth2Scheme.login this _opts w) in
  requests_of (trace w') = requests_of (trace w) /\
  token w' = token w /\
  refreshToken w' = refreshToken w /\
  user w' = user w /\
  authorization_header w' = authorization_header w.
Proof.
  pose proof (request_parameters_session this _opts w) as (Ht & Hr & Hu & Hh).
  pose proof (request_parameters_frame this _opts w) as (_ & Htr).
  destruct (Oauth2Scheme.request_parameters this _opts w) as [[opts|e] w1] eqn:Hrun;
    simpl in *.
  - destruct (login_after_parameters this _opts w opts w1 Hrun)
      as (_ & _ & Ht' & Hr' & Hu' & Hh' & Hq').
    simpl. rewrite Ht', Hr', Hu', Hh', Hq', Htr. auto.
  - unfold Oauth2Scheme.login. monad_unfold. rewrite Hrun. simpl.
    rewrite Htr. auto.
Qed.

Lemma obj_get_spread_absent (k : string) (p o : jsobj) :
  obj_has k p = false -> obj_get k (obj_spread o p) = obj_get k o.
Proof.
  unfold obj_spread. revert o.
  induction p as [|[k0 v0] p IH]; intros o; simpl; [reflexivity|].
  intros H. apply orb_false_iff in H as [Hk Hp].
  rewrite (IH _ Hp). now rewrite obj_get_set, Hk.
Qed.

Lemma obj_get_set_same (k : string) (v : jsval) (o : jsobj) :
  obj_get k (obj_set k v o) = v.
Proof. now rewrite obj_get_set, String.eqb_refl. Qed.

Lemma generated_length (f : nat -> Z) (c : nat) :
  String.length
    (String.concat ""
       (map Oauth2Scheme.hex_of_element (map (fun i => to_uint32 (f (c + i))) (seq 0 28))))
  = 56.
Proof.
  set (words := map (fun i => to_uint32 (f (c + i))) (seq 0 28)).
  assert (Hpos : Forall (fun x => 0 <= x)%Z words).
  { apply Forall_forall. intros x Hin.
    apply list_elem_of_In, in_map_iff in Hin as (i & <- & _).
    unfold to_uint32. apply Z.mod_pos_bound. lia. }
  destruct (hex_elements_decode words Hpos) as [_ Hl].
  rewrite Hl. unfold words. now rewrite length_map, length_seq.
Qed.

(** The parameters of a PKCE login: the challenge sent is the challenge of
    the verifier stored. *)
Lemma request_parameters_pkce (this : Scheme) (_opts : LoginOptions) (w : World)
    (response_type m : string) :
  effective_response_type this _opts = JStr response_type ->
  effective_challenge_method this _opts = JStr m ->
  m = "plain" \/ m = "S256" ->
  exists opts w1 v,
    Oauth2Scheme.request_parameters this _opts w = (Returned opts, w1) /\
    storage w1 !! verifier_key this = Some (JStr v) /\
    String.length v = 56 /\
    obj_get "code_challenge" opts
    = JStr (encodeURIComponent (platform this)
              (Oauth2Scheme.pkceChallengeFromVerifier v (String.eqb m "S256"))).
Proof.
  intros Hrt Hm Hmethod. unfold Oauth2Scheme.request_parameters.
  unfold util_randomString, setUniversal.
  monad_unfold.
  assert (Hget : forall l,
             obj_get "response_type" l = responseType (options this) ->
             obj_get "response_type" (obj_spread l (login_params _opts))
             = JStr response_type).
  { intros l Hl. rewrite <- Hrt.
    unfold effective_response_type. apply obj_get_spread. exact Hl. }
  assert (Hget' : forall l,
             obj_get "code_challenge_method" l = codeChallengeMethod (options this) ->
             obj_get "code_challenge_method" (obj_spread l (login_params _opts))
             = JStr m).
  { intros l Hl. rewrite <- Hm.
    unfold effective_challenge_method. apply obj_get_spread. exact Hl. }
  assert (Hcond : truthy (JStr m)
                  && (strict_eq (JStr m) (JStr "plain") || strict_eq (JStr m) (JStr "S256"))
                  = true)
    by (destruct Hmethod as [-> | ->]; reflexivity).
  assert (Hhashed : strict_eq (JStr m) (JStr "S256") = String.eqb m "S256")
    by (destruct Hmethod as [-> | ->]; reflexivity).
  destruct (truthy (login_state _opts)); cbv beta iota.
  all: autorewrite with obj; rewrite Hget by reflexivity; cbv beta iota.
  all: destruct (includes "token" response_type || includes "id_token" response_type);
    cbv beta iota.
  all: try (destruct (truthy (login_nonce _opts)); cbv beta iota).
  all: autorewrite with obj; rewrite Hget' by reflexivity; rewrite Hcond, Hhashed;
    cbv beta iota.
  all: rewrite !generateRandomString_eq; cbv beta iota.
  all: do 3 eexists; (split; [reflexivity|]).
  all: split; [apply lookup_insert_eq|].
  all: split; [apply generated_length|].
  all: autorewrite with obj; apply obj_get_set_same.
Qed.

(** ** From [login] to the callback *)

(** The state of the request, when the caller's [params] carry none: the
    caller's [state], or ten random characters. *)
Lemma request_parameters_state (this : Scheme) (_opts : LoginOptions) (w : World)
    (opts : jsobj) (w1 : World) :
  Oauth2Scheme.request_parameters this _opts w = (Returned opts, w1) ->
  obj_has "state" (login_params _opts) = false ->
  obj_get "state" opts
  = if truthy (login_state _opts) then login_state _opts
    else JStr (randomString (platform this) 10 (random_cursor w)).
Proof.
  intros Hrun Hparams. revert Hrun.
  unfold Oauth2Scheme.request_parameters.
  unfold util_randomString, setUniversal.
  monad_unfold.
  destruct (truthy (login_state _opts)); cbv beta iota.
  all: match goal with
       | |- context [match ?v with JStr _ => _ | _ => _ end] => destruct v
       end; cbv beta iota; try discriminate.
  all: match goal with
       | |- context [if ?c then _ else _] => destruct c; cbv beta iota
       end.
  all: try (destruct (truthy (login_nonce _opts)); cbv beta iota).
  all: match goal with
       | |- context [if ?c then _ else _] => destruct c; cbv beta iota
       end.
  all: rewrite ?generateRandomString_eq; cbv beta iota.
  all: intros Hrun; apply returned_inj in Hrun; subst opts.
  all: autorewrite with obj; rewrite (obj_get_spread_absent _ _ _ Hparams); reflexivity.
Qed.

Lemma kept_truthy (v : jsval) : truthy v = true -> kept v = Some v.
Proof. destruct v; simpl; intros H; try reflexivity; discriminate H. Qed.

Lemma state_key_options (this cb : Scheme) :
  options cb = options this -> state_key cb = state_key this.
Proof. unfold state_key. now intros ->. Qed.

Lemma verifier_key_options (this cb : Scheme) :
  options cb = options this -> verifier_key cb = verifier_key this.
Proof. unfold verifier_key. now intros ->. Qed.





(** ** The popup: its interval callback and its placement *)






(** ** [reset], [logout] and [mounted] *)

Lemma navigations_app (t1 t2 : list Event) :
  navigations (t1 ++ t2) = navigations t1 ++ navigations t2.
Proof.
  induction t1 as [|e t1 IH]; simpl; [reflexivity|].
  destruct e; simpl; now rewrite ?IH.
Qed.

(** What a reset leaves: empty stores in memory and in persistence, no user,
    no header; everything else as before. *)
Lemma reset_world (w : World) :
  Oauth2Scheme.reset w
  = (Returned tt,
     with_trace (fun t => t ++ reset_events)
       (with_header None
          (with_refreshToken store_reset
             (with_token store_reset (with_user (JBool false) w))))).
Proof.
  unfold Oauth2Scheme.reset, auth_setUser, Token_reset, RefreshToken_reset,
    RequestHandler_reset, reset_events.
  run. unfold with_trace; simpl. now rewrite <- !app_assoc.
Qed.



Lemma auth_reset_world (w : World) :
  Oauth2Scheme.auth_reset w
  = (Returned tt,
     with_trace (fun t => t ++ EvAuthReset :: reset_events)
       (with_header None
          (with_refreshToken store_reset
             (with_token store_reset (with_user (JBool false) w))))).
Proof.
  unfold Oauth2Scheme.auth_reset. monad_unfold. unfold modify. cbv beta iota.
  rewrite reset_world. unfold with_trace; simpl. now rewrite <- app_assoc.
Qed.

(** [mounted] is the callback handling in the session that the check and the
    reset leave, followed by the user fetch unless a redirect happened. *)
Lemma mounted_eq (this : Scheme) (fetchUserOnce : M jsval) (w : World) :
  Lifecycle.mounted this fetchUserOnce w
  = match Oauth2Scheme.handleCallback this (mounted_session this w) with
    | (Returned redirected, w') =>
        if negb (truthy redirected) then fetchUserOnce w' else (Returned JUndefined, w')
    | (Thrown e, w') => (Thrown e, w')
    end.
Proof.
  unfold Lifecycle.mounted, Lifecycle.RequestHandler_initializeRequestInterceptor.
  monad_unfold.
  destruct (check_returns true w) as [r Hr]. rewrite Hr. cbv beta iota.
  destruct (check_true_cases w r Hr) as (_ & _ & Hre & Hte).
  assert (Hstale : refreshTokenExpired r || tokenExpired r && autoLogout (options this)
                   = stale this w).
  { rewrite Hre, Hte. unfold stale.
    destruct (token_present (synced w)), (refresh_token_expired (synced w)),
      (token_expired (synced w)), (autoLogout (options this)); reflexivity. }
  rewrite Hstale. unfold mounted_session.
  destruct (stale this w); cbv beta iota.
  - rewrite auth_reset_world. cbv beta iota. simpl snd.
    destruct (Oauth2Scheme.handleCallback this _) as [[redirected|e] w'];
      [destruct (negb (truthy redirected))|]; reflexivity.
  - unfold mret, M_ret. cbv beta iota.
    destruct (Oauth2Scheme.handleCallback this _) as [[redirected|e] w'];
      [destruct (negb (truthy redirected))|]; reflexivity.
Qed.

Lemma mounted_session_storage (this : Scheme) (w : World) :
  storage (mounted_session this w) = storage w.
Proof.
  unfold mounted_session. destruct (stale this w); [|reflexivity].
  now rewrite auth_reset_world.
Qed.

Lemma mounted_session_tokens_set (this : Scheme) (w : World) :
  tokens_set (trace (mounted_session this w)) = tokens_set (trace w).
Proof.
  unfold mounted_session. destruct (stale this w); [|reflexivity].
  rewrite auth_reset_world. simpl. rewrite tokens_set_app. simpl. apply app_nil_r.
Qed.

(** X13.  Off the callback route, [mounted] is the user fetch, run once in
    the session the check leaves: the synced stores when nothing is stale,
    and a session reset beforehand when the refresh token has expired, or
    the token has and [autoLogout] is on.  An expired token alone is kept. *)
Theorem mounted_elsewhere (this : Scheme) (fetchUserOnce : M jsval) (w : World) :
  handles_callback this = false ->
  Lifecycle.mounted this fetchUserOnce w = fetchUserOnce (mounted_session this w) /\
  if stale this w then
    token (mounted_session this w) = store_reset (token w) /\
    refreshToken (mounted_session this w) = store_reset (refreshToken w) /\
    user (mounted_session this w) = JBool false /\
    trace (mounted_session this w) = trace w ++ EvAuthReset :: reset_events
  else mounted_session this w = synced w.
Proof.
  intros Hcb. split.
  - rewrite mounted_eq.
    assert (Hnone : Oauth2Scheme.handleCallback this (mounted_session this w)
                    = (Returned JUndefined, mounted_session this w)).
    { unfold handles_callback in Hcb. unfold Oauth2Scheme.handleCallback.
      destruct (redirect_callback (auth_options this)) as [callback|].
      - destruct (String.eqb _ _); simpl in *; [|reflexivity].
        destruct (process_server (platform this)); [reflexivity|discriminate].
      - destruct (process_server (platform this)); [reflexivity|discriminate]. }
    rewrite Hnone. reflexivity.
  - unfold mounted_session. destruct (stale this w); [|reflexivity].
    rewrite auth_reset_world. simpl. auto.
Qed.

(** On [/dashboard] at time 100, with a token that expired at 50 and a
    refresh token that expired at 60; the user fetch reads the user. *)
Lemma mounted_elsewhere_witness :
  let this := elsewhere Demo.DEFAULTS (HttpOk Demo.token_response) ∅ "" in
  let w := Demo.world 100 (Demo.token_until "T" 50) (Demo.token_until "R" 60) ∅ RefNull in
  let fetchUserOnce : M jsval := gets user in
  handles_callback this = false /\
  stale this w = true /\
  Lifecycle.mounted this fetchUserOnce w
  = (Returned (JBool false), mounted_session this w) /\
  value (token (mounted_session this w)) = None.
Proof.
  intros this w fetchUserOnce.
  destruct (mounted_elsewhere this fetchUserOnce w eq_refl) as [Hm Hs].
  change (stale this w) with true in Hs. cbv beta iota in Hs.
  destruct Hs as (Ht & _ & Hu & _).
  split; [reflexivity|]. split; [reflexivity|]. split.
  - rewrite Hm. unfold fetchUserOnce, gets. now rewrite Hu.
  - now rewrite Ht.
Defined.

(** An accepted callback that brings a usable token and runs no exchange
    redirects home, outside popup mode and with [watchLoggedIn] on. *)
Lemma handleCallback_redirects (this : Scheme) (w : World) :
  handles_callback this = true ->
  state_accepted this w = true ->
  exchanges_code this = false ->
  usable (callback_token this) = true ->
  truthy (clientWindow (options this)) = false ->
  watchLoggedIn (auth_options this) = true ->
  fst (Oauth2Scheme.handleCallback this w) = Returned (JBool true) /\
  exists t, trace (snd (Oauth2Scheme.handleCallback this w)) = t ++ [EvRedirect "home"].
Proof.
  intros Hcb Hacc Hex Huse Hpopup Hwatch.
  destruct (handles_callback_guards this Hcb) as [Hroute Hserver].
  unfold state_accepted in Hacc. apply negb_true_iff in Hacc.
  unfold Oauth2Scheme.handleCallback. rewrite Hroute, Hserver.
  unfold getUniversal, setUniversal, auth_request, Token_set, RefreshToken_set, auth_redirect.
  run.
  fold (state_key this) (parsedQuery this). fold (callback_param this "state").
  rewrite Hacc. simpl.
  fold (callback_param this "code").
  change (strict_eq (responseType (options this)) (JStr "code")
          && truthy (callback_param this "code")) with (exchanges_code this).
  rewrite Hex. simpl.
  fold (callback_param this (token_property (options this))). fold (callback_token this).
  rewrite (usable_inv _ Huse), Hpopup, Hwatch.
  split_ifs; (split; [reflexivity|]); eexists; reflexivity.
Qed.

(** X14.  On the callback page, [mounted] resets a stale session before the
    callback is handled, so the token the callback brings is the one the
    session ends with; and when the callback handling redirects, the user
    is not fetched: the outcome is that of the callback handling, whatever
    [fetchUserOnce] would do. *)
Theorem mounted_callback_redirects (this : Scheme) (fetchUserOnce : M jsval) (w : World) :
  handles_callback this = true ->
  state_accepted this w = true ->
  exchanges_code this = false ->
  usable (callback_token this) = true ->
  truthy (clientWindow (options this)) = false ->
  watchLoggedIn (auth_options this) = true ->
  let w' := snd (Oauth2Scheme.handleCallback this (mounted_session this w)) in
  Lifecycle.mounted this fetchUserOnce w = (Returned JUndefined, w') /\
  value (token w') = stored_value this (callback_token this) /\
  tokens_set (trace w') = tokens_set (trace w) ++ [callback_token this] /\
  exists t, trace w' = t ++ [EvRedirect "home"].
Proof.
  intros Hcb Hacc Hex Huse Hpopup Hwatch w'.
  assert (Hacc' : state_accepted this (mounted_session this w) = true).
  { unfold state_accepted in *. now rewrite mounted_session_storage. }
  destruct (handleCallback_redirects this _ Hcb Hacc' Hex Huse Hpopup Hwatch)
    as [Hfst Hlast].
  destruct (handleCallback_accepted_no_exchange this _ Hcb Hacc' Hex Huse)
    as (Hvalue & Hset & _).
  fold w' in Hlast, Hvalue, Hset.
  split.
  - rewrite mounted_eq.
    destruct (Oauth2Scheme.handleCallback this (mounted_session this w))
      as [o w0] eqn:Hrun.
    simpl in Hfst. subst o w'. reflexivity.
  - split; [exact Hvalue|]. split; [|exact Hlast].
    now rewrite Hset, mounted_session_tokens_set.
Qed.

(** The callback page at time 100 with an expired session stored and a
    fresh token in the fragment; the user fetch would throw. *)
Lemma mounted_callback_redirects_witness :
  let this := Demo.scheme Demo.DEFAULTS (HttpOk Demo.token_response)
                ∅ "#access_token=T9" in
  let w := Demo.world 100 (Demo.token_until "T" 50) (Demo.token_until "R" 60) ∅ RefNull in
  let fetchUserOnce : M jsval := throw (RequestError "unreachable") in
  let w' := snd (Oauth2Scheme.handleCallback this (mounted_session this w)) in
  handles_callback this = true /\
  state_accepted this w = true /\
  exchanges_code this = false /\
  usable (callback_token this) = true /\
  truthy (clientWindow (options this)) = false /\
  watchLoggedIn (auth_options this) = true /\
  stale this w = true /\
  Lifecycle.mounted this fetchUserOnce w = (Returned JUndefined, w') /\
  value (token w') = Some "T9".
Proof.
  intros this w fetchUserOnce w'.
  assert (H2 : state_accepted this w = true) by (vm_compute; reflexivity).
  assert (H3 : exchanges_code this = false) by (vm_compute; reflexivity).
  assert (H4 : usable (callback_token this) = true) by (vm_compute; reflexivity).
  destruct (mounted_callback_redirects this fetchUserOnce w eq_refl H2 H3 H4 eq_refl eq_refl)
    as (Hm & Hv & _).
  do 6 (split; [assumption || reflexivity|]).
  split; [vm_compute; reflexivity|]. split; [exact Hm|].
  fold w' in Hv. rewrite Hv. vm_compute. reflexivity.
Defined.

(** ** The second random string of a PKCE login *)

Lemma pkce_state_key_apart (this : Scheme) :
  state_key this <> pkce_state_key this /\ verifier_key this <> pkce_state_key this.
Proof.
  unfold state_key, verifier_key, pkce_state_key.
  split; intros E; apply (inj (String.app (name (options this)))) in E; discriminate E.
Qed.

(** [#handleCallback] neither reads nor removes what is stored under
    [<name>.pkce_state]. *)
Lemma handleCallback_keeps_pkce_state (this : Scheme) (w : World) :
  storage (snd (Oauth2Scheme.handleCallback this w)) !! pkce_state_key this
  = storage w !! pkce_state_key this.
Proof.
  destruct (pkce_state_key_apart this) as [Hs Hv].
  unfold Oauth2Scheme.handleCallback.
  unfold getUniversal, setUniversal, auth_request, Token_set, RefreshToken_set, auth_redirect.
  run.
  fold (state_key this) (verifier_key this).
  split_ifs; try reflexivity.
  all: destruct (redirect_callback (auth_options this)); simpl;
    rewrite ?(lookup_delete_ne _ _ _ Hv), ?(lookup_delete_ne _ _ _ Hs); reflexivity.
Qed.

Lemma request_parameters_pkce_state (this : Scheme) (_opts : LoginOptions) (w : World)
    (response_type m : string) :
  effective_response_type this _opts = JStr response_type ->
  effective_challenge_method this _opts = JStr m ->
  m = "plain" \/ m = "S256" ->
  exists opts w1 s,
    Oauth2Scheme.request_parameters this _opts w = (Returned opts, w1) /\
    storage w1 !! pkce_state_key this = Some (JStr s) /\
    String.length s = 56 /\
    (obj_has "state" (login_params _opts) = false ->
     obj_get "state" opts
     = if truthy (login_state _opts) then login_state _opts
       else JStr (randomString (platform this) 10 (random_cursor w))).
Proof.
  intros Hrt Hm Hmethod.
  destruct (request_parameters_pkce this _opts w response_type m Hrt Hm Hmethod)
    as (opts & w1 & v & Hrun & _).
  exists opts, w1.
  assert (Hs : exists s, storage w1 !! pkce_state_key this = Some (JStr s) /\
                         String.length s = 56).
  { destruct (pkce_state_key_apart this) as [_ Hv].
    revert Hrun. unfold Oauth2Scheme.request_parameters.
    unfold util_randomString, setUniversal.
    monad_unfold.
    assert (Hget : forall l,
               obj_get "response_type" l = responseType (options this) ->
               obj_get "response_type" (obj_spread l (login_params _opts))
               = JStr response_type).
    { intros l Hl. rewrite <- Hrt.
      unfold effective_response_type. apply obj_get_spread. exact Hl. }
    assert (Hget' : forall l,
               obj_get "code_challenge_method" l = codeChallengeMethod (options this) ->
               obj_get "code_challenge_method" (obj_spread l (login_params _opts))
               = JStr m).
    { intros l Hl. rewrite <- Hm.
      unfold effective_challenge_method. apply obj_get_spread. exact Hl. }
    assert (Hcond : truthy (JStr m)
                    && (strict_eq (JStr m) (JStr "plain")
                        || strict_eq (JStr m) (JStr "S256")) = true)
      by (destruct Hmethod as [-> | ->]; reflexivity).
    destruct (truthy (login_state _opts)); cbv beta iota.
    all: autorewrite with obj; rewrite Hget by reflexivity; cbv beta iota.
    all: destruct (includes "token" response_type || includes "id_token" response_type);
      cbv beta iota.
    all: try (destruct (truthy (login_nonce _opts)); cbv beta iota).
    all: autorewrite with obj; rewrite Hget' by reflexivity; rewrite Hcond;
      cbv beta iota.
    all: rewrite !generateRandomString_eq; cbv beta iota.
    all: intros Hrun; injection Hrun as _ <-.
    all: eexists; split;
      [ unfold storage at 1, with_storage at 1;
        fold (verifier_key this) (pkce_state_key this);
        rewrite (lookup_insert_ne _ _ _ _ Hv); apply lookup_insert_eq
      | apply generated_length ]. }
  destruct Hs as (s & Hs & Hlen). exists s.
  split; [exact Hrun|]. split; [exact Hs|]. split; [exact Hlen|].
  intros Hparams. exact (request_parameters_state this _opts w opts w1 Hrun Hparams).
Qed.

Lemma pkce_state_key_options (this cb : Scheme) :
  options cb = options this -> pkce_state_key cb = pkce_state_key this.
Proof. unfold pkce_state_key. now intros ->. Qed.

(** X15.  The second random string of a PKCE login is dead weight.  A login
    with challenge method [plain] or [S256] stores 56 fresh characters
    under [<name>.pkce_state]; the state that goes into the request and
    under [<name>.state] is the caller's or the ten-character one, and the
    callback handling leaves [<name>.pkce_state] in storage as it found
    it. *)
Theorem pkce_state_left_behind (this cb : Scheme) (_opts : LoginOptions) (w : World)
    (response_type m : string) :
  effective_response_type this _opts = JStr response_type ->
  effective_challenge_method this _opts = JStr m ->
  m = "plain" \/ m = "S256" ->
  obj_has "state" (login_params _opts) = false ->
  options cb = options this ->
  let w1 := snd (Oauth2Scheme.login this _opts w) in
  let w2 := snd (Oauth2Scheme.handleCallback cb w1) in
  let sent := if truthy (login_state _opts) then login_state _opts
              else JStr (randomString (platform this) 10 (random_cursor w)) in
  exists s,
    String.length s = 56 /\
    storage w1 !! pkce_state_key this = Some (JStr s) /\
    storage w1 !! state_key this = kept sent /\
    storage w2 !! pkce_state_key this = Some (JStr s).
Proof.
  intros Hrt Hm Hmethod Hparams Hopts w1 w2 sent.
  destruct (request_parameters_pkce_state this _opts w response_type m Hrt Hm Hmethod)
    as (opts & wp & s & Hrun & Hs & Hlen & Hstate).
  destruct (login_after_parameters this _opts w opts wp Hrun) as (Hkept & Hother & _).
  fold w1 in Hkept, Hother.
  destruct (pkce_state_key_apart this) as [Hne _].
  assert (Hs1 : storage w1 !! pkce_state_key this = Some (JStr s)).
  { rewrite Hother by (intros E; exact (Hne (eq_sym E))). exact Hs. }
  exists s. split; [exact Hlen|]. split; [exact Hs1|].
  split; [rewrite Hkept, (Hstate Hparams); reflexivity|].
  unfold w2. rewrite <- (pkce_state_key_options this cb Hopts).
  rewrite handleCallback_keeps_pkce_state.
  now rewrite (pkce_state_key_options this cb Hopts).
Qed.

(** The [S256] code flow from [/dashboard] with state [s1], and the
    callback page handled afterwards. *)
Lemma pkce_state_left_behind_witness :
  let o := Demo.with_codeChallengeMethod (JStr "S256")
             (Demo.with_responseType (JStr "code") Demo.DEFAULTS) in
  let this := elsewhere o (HttpOk Demo.token_response) ∅ "" in
  let cb := Demo.scheme o (HttpOk Demo.token_response)
              {[ "code" := JStr "abc"; "state" := JStr "s1" ]} "" in
  let _opts := {| login_state := JStr "s1"; login_nonce := JUndefined;
                  login_params := [] |} in
  let w := Demo.world 0 Demo.no_token Demo.no_token ∅ RefNull in
  let w1 := snd (Oauth2Scheme.login this _opts w) in
  let w2 := snd (Oauth2Scheme.handleCallback cb w1) in
  effective_response_type this _opts = JStr "code" /\
  effective_challenge_method this _opts = JStr "S256" /\
  obj_has "state" (login_params _opts) = false /\
  options cb = options this /\
  exists s,
    String.length s = 56 /\
    storage w1 !! pkce_state_key this = Some (JStr s) /\
    storage w1 !! state_key this = Some (JStr "s1") /\
    storage w2 !! pkce_state_key this = Some (JStr s).
Proof.
  intros o this cb _opts w w1 w2.
  do 4 (split; [reflexivity|]).
  exact (pkce_state_left_behind this cb _opts w "code" "S256"
           eq_refl eq_refl (or_intror eq_refl) eq_refl eq_refl).
Defined.

(** ** [refreshTokens] and [check] *)

(** The stores after a refresh that the token endpoint answered. *)
Lemma refreshTokens_stores (this : Scheme) (w : World) (response : jsobj) :
  refresh_token_present w = true ->
  refresh_token_expired w = false ->
  http (platform this)
       (Oauth2Scheme.refresh_request this (of_opt (value (refreshToken w))))
  = HttpOk response ->
  let token_ := getProp response (token_property (options this)) in
  let refreshToken_ := getProp response (refreshToken_property (options this)) in
  let w' := snd (Oauth2Scheme.refreshTokens this w) in
  fst (Oauth2Scheme.refreshTokens this w) = Returned (Some response) /\
  now w' = now w /\
  token w' = store_set this (token_maxAge (options this)) (now w) token_ (token w) /\
  refreshToken w'
  = (if truthy refreshToken_
     then store_set this (refreshToken_maxAge (options this)) (now w) refreshToken_
            (refreshToken w)
     else refreshToken w) /\
  tokens_set (trace w') = tokens_set (trace w) ++ [token_].
Proof.
  unfold refresh_token_present, refresh_token_expired, Oauth2Scheme.refreshTokens,
    RefreshToken_get, RefreshToken_status_expired, RequestHandler_clearHeader,
    auth_request, auth_callOnError, Oauth2Scheme.updateTokens, Token_set,
    RefreshToken_set.
  intros Hp He Hhttp. monad_unfold. rewrite Hp.
  change (negb true) with false. cbv beta iota. rewrite He. simpl.
  rewrite Hhttp. simpl.
  destruct (truthy (getProp response (refreshToken_property (options this))));
    simpl; autorewrite with log; simpl; autorewrite with log; repeat split.
Qed.

(** X16.  A refresh that the token endpoint answers without a token costs
    the session its token.  [updateTokens] hands the token property of the
    response to [token.set] unguarded (only the refresh token is guarded):
    when the response has no refresh token and nothing the store keeps as a
    token, [refreshTokens] still returns the response as a success, the
    refresh token is the one it was, the token store is empty, and [check]
    finds the session invalid. *)
Theorem refresh_without_token (this : Scheme) (w : World) (response : jsobj)
    (checkStatus : bool) :
  refresh_token_present w = true ->
  refresh_token_expired w = false ->
  http (platform this)
       (Oauth2Scheme.refresh_request this (of_opt (value (refreshToken w))))
  = HttpOk response ->
  let token_ := getProp response (token_property (options this)) in
  let refreshToken_ := getProp response (refreshToken_property (options this)) in
  stored_value this token_ = None ->
  truthy refreshToken_ = false ->
  let w' := snd (Oauth2Scheme.refreshTokens this w) in
  fst (Oauth2Scheme.refreshTokens this w) = Returned (Some response) /\
  tokens_set (trace w') = tokens_set (trace w) ++ [token_] /\
  refreshToken w' = refreshToken w /\
  value (token w') = None /\
  exists r, fst (Oauth2Scheme.check checkStatus w') = Returned r /\ valid r = false.
Proof.
  intros Hp He Hhttp token_ refreshToken_ Hnone Hrefresh w'.
  destruct (refreshTokens_stores this w response Hp He Hhttp)
    as (Ho & _ & Ht & Hr & Hset).
  fold token_ refreshToken_ w' in Ht, Hr, Hset. rewrite Hrefresh in Hr.
  split; [exact Ho|]. split; [exact Hset|]. split; [exact Hr|].
  assert (Hempty : token w' = store_reset (token w)).
  { rewrite Ht. unfold store_set, store_reset. now rewrite Hnone. }
  split; [now rewrite Hempty|].
  unfold Oauth2Scheme.check, Token_sync, RefreshToken_sync. run.
  rewrite Hempty. simpl. eexists. split; reflexivity.
Qed.

(** The token endpoint answers [{}] to the refresh. *)
Lemma refresh_without_token_witness :
  let this := elsewhere Demo.DEFAULTS (HttpOk []) ∅ "" in
  let w := Demo.world 100 (Demo.token_until "T" 50) (Demo.token_until "R" 600) ∅ RefNull in
  let w' := snd (Oauth2Scheme.refreshTokens this w) in
  refresh_token_present w = true /\
  refresh_token_expired w = false /\
  fst (Oauth2Scheme.refreshTokens this w) = Returned (Some []) /\
  tokens_set (trace w') = [JUndefined] /\
  refreshToken w' = Demo.token_until "R" 600 /\
  value (token w') = None /\
  exists r, fst (Oauth2Scheme.check true w') = Returned r /\ valid r = false.
Proof.
  intros this w w'. split; [reflexivity|]. split; [reflexivity|].
  exact (refresh_without_token this w [] true eq_refl eq_refl eq_refl eq_refl eq_refl).
Defined.

(** X17.  A refresh that brings both tokens leaves a valid session.  When
    the response carries a token and a refresh token that the stores keep
    (non-empty after the prefix is removed), neither says when it expires
    by itself, and both maximal ages are positive, [check] with validation
    of the status finds the session valid right after [refreshTokens], with
    no expiry flag raised. *)
Theorem refresh_then_check (this : Scheme) (w : World) (response : jsobj)
    (t rt : string) :
  refresh_token_present w = true ->
  refresh_token_expired w = false ->
  http (platform this)
       (Oauth2Scheme.refresh_request this (of_opt (value (refreshToken w))))
  = HttpOk response ->
  stored_value this (getProp response (token_property (options this))) = Some t ->
  stored_value this (getProp response (refreshToken_property (options this))) = Some rt ->
  t <> "" -> rt <> "" ->
  decodeExpiry (platform this) t = None ->
  decodeExpiry (platform this) rt = None ->
  (0 < token_maxAge (options this))%Z ->
  (0 < refreshToken_maxAge (options this))%Z ->
  let w' := snd (Oauth2Scheme.refreshTokens this w) in
  value (token w') = Some t /\
  value (refreshToken w') = Some rt /\
  fst (Oauth2Scheme.check true w')
  = Returned {| valid := true; tokenExpired := false;
                refreshTokenExpired := false; isRefreshable := true |}.
Proof.
  intros Hp He Hhttp Ht Hrt Hne Hrne Hdt Hdrt Hage Hrage w'.
  destruct (refreshTokens_stores this w response Hp He Hhttp)
    as (_ & Hnow & Htok & Href & _).
  fold w' in Hnow, Htok, Href.
  assert (Htruthy : truthy (getProp response (refreshToken_property (options this)))
                    = true).
  { destruct (getProp response (refreshToken_property (options this))) as [| | | |s];
      try discriminate Hrt.
    simpl in *. destruct (String.eqb s ""); [discriminate Hrt | reflexivity]. }
  rewrite Htruthy in Href.
  unfold store_set in Htok, Href. rewrite Ht in Htok. rewrite Hrt in Href.
  simpl in Htok, Href. rewrite Hdt in Htok. rewrite Hdrt in Href. simpl in Htok, Href.
  split; [now rewrite Htok|]. split; [now rewrite Href|].
  destruct (check_returns true w') as [r Hr]. rewrite Hr. simpl.
  destruct (check_true_cases w' r Hr) as (Hi & Hv & Hre & Hte).
  assert (Hpresent : token_present (synced w') = true).
  { unfold token_present, synced. simpl. rewrite Htok. simpl.
    apply String.eqb_neq in Hne. now rewrite Hne. }
  assert (Hrexp : refresh_token_expired (synced w') = false).
  { unfold refresh_token_expired, synced, store_expired. simpl.
    rewrite Href, Hnow. simpl. apply Z.leb_gt. lia. }
  assert (Htexp : token_expired (synced w') = false).
  { unfold token_expired, synced, store_expired. simpl.
    rewrite Htok, Hnow. simpl. apply Z.leb_gt. lia. }
  rewrite Hpresent, Hrexp in Hv, Hre, Hte. rewrite Htexp in Hv, Hte.
  simpl in Hv, Hre, Hte.
  destruct r; simpl in *. now subst.
Qed.

(** The token endpoint answers with [T1] and [R1] at time 100. *)
Lemma refresh_then_check_witness :
  let this := elsewhere Demo.DEFAULTS (HttpOk Demo.token_response) ∅ "" in
  let w := Demo.world 100 (Demo.token_until "T" 50) (Demo.token_until "R" 600) ∅ RefNull in
  let w' := snd (Oauth2Scheme.refreshTokens this w) in
  refresh_token_present w = true /\
  refresh_token_expired w = false /\
  value (token w') = Some "T1" /\
  value (refreshToken w') = Some "R1" /\
  fst (Oauth2Scheme.check true w')
  = Returned {| valid := true; tokenExpired := false;
                refreshTokenExpired := false; isRefreshable := true |}.
Proof.
  intros this w w'. split; [reflexivity|]. split; [reflexivity|].
  apply (refresh_then_check this w Demo.token_response "T1" "R1");
    try reflexivity; try discriminate.
Defined.

(** * The auth module *)

Section SchemeImports.

Context {ImportOptions : Type} (as_ : ImportOptions -> string).

Lemma filter_unique_spec (seen : gset string) (values : list ImportOptions) :
  let kept := AuthModule.filter_unique ImportOptions as_ seen values in
  NoDup (map as_ kept) /\
  (forall i, i ∈ kept -> as_ i ∉ seen) /\
  (forall i, i ∈ values -> as_ i ∈ seen \/ as_ i ∈ map as_ kept) /\
  sublist kept values.
Proof.
  revert seen. induction values as [|i rest IH]; intros seen; simpl.
  - repeat split; [constructor | intros i H; inversion H | intros i H; inversion H
                  | constructor].
  - destruct (decide (as_ i ∈ seen)) as [Hin|Hout].
    + destruct (IH seen) as (Hnd & Hnot & Hall & Hsub).
      repeat split; [exact Hnd | exact Hnot | | now apply sublist_cons].
      intros j Hj. apply elem_of_cons in Hj as [-> | Hj]; [now left | now apply Hall].
    + destruct (IH ({[as_ i]} ∪ seen)) as (Hnd & Hnot & Hall & Hsub).
      repeat split.
      * simpl. constructor; [|exact Hnd].
        intros Hdup. apply list_elem_of_fmap in Hdup as (j & Heq & Hj).
        apply Hnot in Hj. apply Hj, elem_of_union. left.
        apply elem_of_singleton. congruence.
      * intros j Hj. apply elem_of_cons in Hj as [-> | Hj]; [exact Hout|].
        apply Hnot in Hj. intros Hs. apply Hj, elem_of_union. now right.
      * intros j Hj. simpl. apply elem_of_cons in Hj as [-> | Hj].
        -- right. apply elem_of_cons. now left.
        -- destruct (Hall j Hj) as [Hs | Hk].
           ++ apply elem_of_union in Hs as [Hs | Hs].
              ** apply elem_of_singleton in Hs. right. apply elem_of_cons. now left.
              ** now left.
           ++ right. apply elem_of_cons. now right.
      * now apply sublist_skip.
Qed.

Lemma filter_unique_first (seen : gset string) (before : list ImportOptions)
    (i : ImportOptions) (after : list ImportOptions) :
  as_ i ∉ seen ->
  as_ i ∉ map as_ before ->
  i ∈ AuthModule.filter_unique ImportOptions as_ seen (before ++ i :: after).
Proof.
  revert seen. induction before as [|j before IH]; intros seen Hseen Hbefore; simpl.
  - destruct (decide (as_ i ∈ seen)); [contradiction|]. apply elem_of_cons. now left.
  - simpl in Hbefore. apply not_elem_of_cons in Hbefore as [Hne Hbefore].
    destruct (decide (as_ j ∈ seen)).
    + now apply IH.
    + apply elem_of_cons. right. apply IH; [|exact Hbefore].
      intros Hin. apply elem_of_union in Hin as [Hin | Hin]; [|contradiction].
      apply elem_of_singleton in Hin. contradiction.
Qed.

(** X18.  The imports [setup] keeps are the first of each [as] name, in
    their order: no two of them share an [as] name, every [as] name of the
    schemes is kept once, the kept imports are a sublist of the values of
    [strategyScheme], and an import that no earlier one shares its [as] name
    with is kept. *)
Theorem schemeImports_first_of_each (values : list ImportOptions) :
  let kept := AuthModule.schemeImports ImportOptions as_ values in
  NoDup (map as_ kept) /\
  (forall i, i ∈ values -> as_ i ∈ map as_ kept) /\
  sublist kept values /\
  (forall before i after,
     values = before ++ i :: after -> as_ i ∉ map as_ before -> i ∈ kept).
Proof.
  unfold AuthModule.schemeImports.
  destruct (filter_unique_spec ∅ values) as (Hnd & _ & Hall & Hsub).
  split; [exact Hnd|]. split; [|split; [exact Hsub|]].
  - intros i Hi. destruct (Hall i Hi) as [Hempty | Hkept]; [|exact Hkept].
    now apply not_elem_of_empty in Hempty.
  - intros before i after -> Hfirst.
    apply filter_unique_first; [apply not_elem_of_empty | exact Hfirst].
Qed.

End SchemeImports.

(** X19.  The configured default strategy never survives [setup].  The
    expression [options.defaultStrategy || strategies.length ?
    strategies\[0\].name : ''] tests the disjunction: with a strategy
    resolved the result is the name of the first one, whatever was
    configured; with none resolved a configured default makes the
    expression read [name] of [undefined] and throw, and only without a
    configured default is the result the empty string. *)
Theorem defaultStrategy_ignores_configured (configured : jsval)
    (strategies : list AuthModule.Strategy) :
  match strategies with
  | s :: _ =>
      AuthModule.defaultStrategy configured strategies
      = Returned (AuthModule.strategy_name s)
  | [] =>
      if truthy configured
      then exists msg,
             AuthModule.defaultStrategy configured strategies = Thrown (TypeError msg)
      else AuthModule.defaultStrategy configured strategies = Returned ""
  end.
Proof.
  unfold AuthModule.defaultStrategy, js_or.
  destruct strategies as [|s rest].
  - destruct (truthy configured) eqn:Hc.
    + rewrite Hc. eexists. reflexivity.
    + reflexivity.
  - destruct (truthy configured) eqn:Hc.
    + now rewrite Hc.
    + reflexivity.
Qed.

(** * The proxy module *)

Section ProxyHandler.

Import ProxyModule.

Context (RegExp : string -> option (string -> bool)).

Lemma handler_skips (before rest : list (string * ProxyOptions)) (req : IncomingMessage) :
  passes RegExp before (req_url req) ->
  handler RegExp (before ++ rest) req = handler RegExp rest req.
Proof.
  unfold passes. induction before as [|[context opts] before IH]; intros H; simpl.
  - reflexivity.
  - apply Forall_cons in H as [Hfirst Hrest]. simpl in Hfirst.
    rewrite Hfirst. now apply IH.
Qed.

(** X20.  The first matching context decides.  When no context before it
    matches the address, the handler does with the request what the first
    matching context says, whatever contexts come after it; a context whose
    pattern is no regular expression makes it reject as soon as the loop
    reaches it; and when no context matches at all, it calls [next()] with
    the address untouched. *)
Theorem handler_first_match (before : list (string * ProxyOptions)) (context : string)
    (opts : ProxyOptions) (after : list (string * ProxyOptions)) (req : IncomingMessage) :
  passes RegExp before (req_url req) ->
  handler RegExp before req = Next (req_url req) /\
  match doesProxyContextMatchUrl RegExp context (req_url req) with
  | Some true =>
      handler RegExp (before ++ (context, opts) :: after) req
      = handler RegExp [(context, opts)] req
  | Some false =>
      handler RegExp (before ++ (context, opts) :: after) req
      = handler RegExp after req
  | None => handler RegExp (before ++ (context, opts) :: after) req = Rejected
  end.
Proof.
  intros Hpass. split.
  - rewrite <- (app_nil_r before). now rewrite handler_skips.
  - rewrite handler_skips by exact Hpass. simpl.
    destruct (doesProxyContextMatchUrl RegExp context (req_url req)) as [[|]|];
      reflexivity.
Qed.

(** X21.  What reaches the proxy.  When the handler hands a request to
    [proxy.web], it does so for a context of the table that matches the
    address and whose [bypass], if there is one, returned nothing to act
    on; the address is the one the [rewrite] of that context made of the
    request's, or the request's own without a [rewrite]; and the options
    passed are empty, so nothing a [bypass] returns ever reaches the
    proxy. *)
Theorem handler_web (proxies : list (string * ProxyOptions)) (req : IncomingMessage)
    (context : string) (url_ : jsval) (options_ : jsobj) :
  handler RegExp proxies req = Web context url_ options_ ->
  options_ = [] /\
  exists opts,
    In (context, opts) proxies /\
    doesProxyContextMatchUrl RegExp context (req_url req) = Some true /\
    url_ = match rewrite_ opts with
           | Some rewrite => rewrite (req_url req)
           | None => JStr (req_url req)
           end /\
    forall f, bypass opts = Some f -> f req = BypassOther.
Proof.
  induction proxies as [|[c opts] rest IH]; simpl; [discriminate|].
  destruct (doesProxyContextMatchUrl RegExp c (req_url req)) as [[|]|] eqn:Hmatch;
    [| |discriminate].
  - assert (Hweb : Web c (match rewrite_ opts with
                          | Some rewrite => rewrite (req_url req)
                          | None => JStr (req_url req)
                          end) [] = Web context url_ options_ ->
                   (forall f, bypass opts = Some f -> f req = BypassOther) ->
                   options_ = [] /\
                   exists opts0,
                     ((c, opts) = (context, opts0) \/ In (context, opts0) rest) /\
                     doesProxyContextMatchUrl RegExp context (req_url req) = Some true /\
                     url_ = match rewrite_ opts0 with
                            | Some rewrite => rewrite (req_url req)
                            | None => JStr (req_url req)
                            end /\
                     forall f, bypass opts0 = Some f -> f req = BypassOther).
    { intros [= <- <- <-] Hby. split; [reflexivity|]. exists opts. auto. }
    destruct (bypass opts) as [f|] eqn:Hb.
    + destruct (f req) eqn:Hf; try discriminate.
      intros H. apply Hweb; [exact H|]. now intros f' [= <-].
    + intros H. apply Hweb; [exact H|]. discriminate.
  - intros H. destruct (IH H) as (Ho & opts0 & Hin & Hrest).
    split; [exact Ho|]. exists opts0. split; [now right | exact Hrest].
Qed.

End ProxyHandler.

(** A table with [/auth], [/api] (rewritten under [/v1]) and [/]; the
    request is for [/api/users]. *)
Lemma handler_first_match_witness :
  let RegExp : string -> option (string -> bool) := fun _ => None in
  let plain := {| ProxyModule.rewrite_ := None; ProxyModule.bypass := None |} in
  let api := {| ProxyModule.rewrite_ := Some (fun p => JStr ("/v1" +:+ p));
                ProxyModule.bypass := None |} in
  let req := {| ProxyModule.req_url := "/api/users"; ProxyModule.req_method := "GET";
                ProxyModule.req_headers := [] |} in
  ProxyModule.passes RegExp [("/auth", plain)] "/api/users" /\
  ProxyModule.handler RegExp [("/auth", plain); ("/api", api); ("/", plain)] req
  = ProxyModule.Web "/api" (JStr "/v1/api/users") [].
Proof.
  intros RegExp plain api req.
  assert (Hpass : ProxyModule.passes RegExp [("/auth", plain)] (ProxyModule.req_url req))
    by (repeat constructor).
  split; [exact Hpass|].
  destruct (handler_first_match RegExp [("/auth", plain)] "/api" api [("/", plain)] req Hpass)
    as [_ Hfirst].
  change (ProxyModule.doesProxyContextMatchUrl RegExp "/api" (ProxyModule.req_url req))
    with (Some true) in Hfirst.
  cbv beta iota in Hfirst. exact Hfirst.
Defined.

(** The same table and request: what [proxy.web] gets. *)
Lemma handler_web_witness :
  let RegExp : string -> option (string -> bool) := fun _ => None in
  let plain := {| ProxyModule.rewrite_ := None; ProxyModule.bypass := None |} in
  let api := {| ProxyModule.rewrite_ := Some (fun p => JStr ("/v1" +:+ p));
                ProxyModule.bypass := None |} in
  let req := {| ProxyModule.req_url := "/api/users"; ProxyModule.req_method := "GET";
                ProxyModule.req_headers := [] |} in
  let proxies := [("/auth", plain); ("/api", api); ("/", plain)] in
  ProxyModule.handler RegExp proxies req
  = ProxyModule.Web "/api" (JStr "/v1/api/users") [] /\
  exists opts,
    In ("/api", opts) proxies /\
    ProxyModule.doesProxyContextMatchUrl RegExp "/api" "/api/users" = Some true.
Proof.
  intros RegExp plain api req proxies.
  assert (Hrun : ProxyModule.handler RegExp proxies req
                 = ProxyModule.Web "/api" (JStr "/v1/api/users") []) by reflexivity.
  split; [exact Hrun|].
  destruct (handler_web RegExp proxies req "/api" (JStr "/v1/api/users") [] Hrun)
    as (_ & opts & Hin & Hmatch & _).
  exists opts. split; [exact Hin | exact Hmatch].
Defined.

(** ** [#base64UrlEncode] loses nothing *)

Lemma all_below_spec (n : nat) (P : Z -> bool) :
  all_below n P = true -> forall z, (0 <= z < Z.of_nat n)%Z -> P z = true.
Proof.
  unfold all_below. intros H z Hz.
  rewrite forallb_forall in H. specialize (H (Z.to_nat z)).
  rewrite Z2Nat.id in H by lia. apply H. apply in_seq. lia.
Qed.

Lemma url_value_char (v : Z) :
  (0 <= v < 64)%Z -> url_value (url_char (b64_char v)) = Some v.
Proof.
  intros Hv.
  assert (H : all_below 64 (fun v => bool_decide (url_value (url_char (b64_char v)) = Some v))
              = true) by (vm_compute; reflexivity).
  apply (all_below_spec 64 _ H) in Hv. now apply bool_decide_eq_true in Hv.
Qed.

Lemma url_char_b64_not_pad (v : Z) : Ascii.eqb (url_char (b64_char v)) "=" = false.
Proof. apply Ascii.eqb_neq, url_char_not_pad, b64_char_not_pad. Qed.

Lemma replace_all_url_char (a : ascii) (s : string) :
  replace_all "/" "_" (replace_all "+" "-" (String a s))
  = String (url_char a) (replace_all "/" "_" (replace_all "+" "-" s)).
Proof. reflexivity. Qed.

Lemma strip_trailing_keeps (c a : ascii) (s : string) :
  Ascii.eqb a c = false ->
  strip_trailing c (String a s) = String a (strip_trailing c s).
Proof.
  intros Hne. rewrite strip_trailing_cons.
  destruct (strip_trailing c s); [now rewrite Hne | reflexivity].
Qed.

(** The encoding, four characters for three octets at a time. *)
Lemma base64UrlEncode_cons3 (a b c : Z) (rest : list Z) :
  Oauth2Scheme.base64UrlEncode (a :: b :: c :: rest)
  = String (url_char (b64_char (Z.shiftr a 2)))
     (String (url_char (b64_char (Z.lor (Z.shiftl (Z.land a 3) 4) (Z.shiftr b 4))))
     (String (url_char (b64_char (Z.lor (Z.shiftl (Z.land b 15) 2) (Z.shiftr c 6))))
     (String (url_char (b64_char (Z.land c 63)))
        (Oauth2Scheme.base64UrlEncode rest)))).
Proof.
  unfold Oauth2Scheme.base64UrlEncode.
  change (btoa (a :: b :: c :: rest))
    with (String (b64_char (Z.shiftr a 2))
         (String (b64_char (Z.lor (Z.shiftl (Z.land a 3) 4) (Z.shiftr b 4)))
         (String (b64_char (Z.lor (Z.shiftl (Z.land b 15) 2) (Z.shiftr c 6)))
         (String (b64_char (Z.land c 63)) (btoa rest))))).
  rewrite !replace_all_url_char.
  now rewrite !strip_trailing_keeps by apply url_char_b64_not_pad.
Qed.

Lemma base64UrlEncode_1 (a : Z) :
  Oauth2Scheme.base64UrlEncode [a]
  = String (url_char (b64_char (Z.shiftr a 2)))
     (String (url_char (b64_char (Z.shiftl (Z.land a 3) 4))) EmptyString).
Proof.
  unfold Oauth2Scheme.base64UrlEncode.
  change (btoa [a])
    with (String (b64_char (Z.shiftr a 2))
         (String (b64_char (Z.shiftl (Z.land a 3) 4)) "==")).
  rewrite !replace_all_url_char.
  now rewrite !strip_trailing_keeps by apply url_char_b64_not_pad.
Qed.

Lemma base64UrlEncode_2 (a b : Z) :
  Oauth2Scheme.base64UrlEncode [a; b]
  = String (url_char (b64_char (Z.shiftr a 2)))
     (String (url_char (b64_char (Z.lor (Z.shiftl (Z.land a 3) 4) (Z.shiftr b 4))))
     (String (url_char (b64_char (Z.shiftl (Z.land b 15) 2))) EmptyString)).
Proof.
  unfold Oauth2Scheme.base64UrlEncode.
  change (btoa [a; b])
    with (String (b64_char (Z.shiftr a 2))
         (String (b64_char (Z.lor (Z.shiftl (Z.land a 3) 4) (Z.shiftr b 4)))
         (String (b64_char (Z.shiftl (Z.land b 15) 2)) "="))).
  rewrite !replace_all_url_char.
  now rewrite !strip_trailing_keeps by apply url_char_b64_not_pad.
Qed.

(** The six-bit groups of two neighbouring octets, and the octets read back
    from them. *)
Lemma sextets_first (a b : Z) :
  (0 <= a < 256)%Z -> (0 <= b < 256)%Z ->
  let v1 := Z.shiftr a 2 in
  let v2 := Z.lor (Z.shiftl (Z.land a 3) 4) (Z.shiftr b 4) in
  ((0 <= v1 < 64) /\ (0 <= v2 < 64) /\
   Z.lor (Z.shiftl v1 2) (Z.shiftr v2 4) = a /\
   Z.land v2 15 = Z.shiftr b 4)%Z.
Proof.
  intros Ha Hb.
  assert (H : all_below 256 (fun a => all_below 256 (fun b =>
                let v1 := Z.shiftr a 2 in
                let v2 := Z.lor (Z.shiftl (Z.land a 3) 4) (Z.shiftr b 4) in
                (0 <=? v1)%Z && (v1 <? 64)%Z && (0 <=? v2)%Z && (v2 <? 64)%Z
                && (Z.lor (Z.shiftl v1 2) (Z.shiftr v2 4) =? a)%Z
                && (Z.land v2 15 =? Z.shiftr b 4)%Z)) = true)
    by (vm_compute; reflexivity).
  apply (all_below_spec 256 _ H) in Ha. apply (all_below_spec 256 _ Ha) in Hb.
  cbv zeta in Hb.
  rewrite !andb_true_iff, !Z.leb_le, !Z.ltb_lt, !Z.eqb_eq in Hb.
  cbv zeta. tauto.
Qed.

Lemma sextets_last (b c : Z) :
  (0 <= b < 256)%Z -> (0 <= c < 256)%Z ->
  let v3 := Z.lor (Z.shiftl (Z.land b 15) 2) (Z.shiftr c 6) in
  let v4 := Z.land c 63 in
  ((0 <= v3 < 64) /\ (0 <= v4 < 64) /\
   Z.lor (Z.shiftl (Z.shiftr b 4) 4) (Z.shiftr v3 2) = b /\
   Z.lor (Z.shiftl (Z.land v3 3) 6) v4 = c)%Z.
Proof.
  intros Hb Hc.
  assert (H : all_below 256 (fun b => all_below 256 (fun c =>
                let v3 := Z.lor (Z.shiftl (Z.land b 15) 2) (Z.shiftr c 6) in
                let v4 := Z.land c 63 in
                (0 <=? v3)%Z && (v3 <? 64)%Z && (0 <=? v4)%Z && (v4 <? 64)%Z
                && (Z.lor (Z.shiftl (Z.shiftr b 4) 4) (Z.shiftr v3 2) =? b)%Z
                && (Z.lor (Z.shiftl (Z.land v3 3) 6) v4 =? c)%Z)) = true)
    by (vm_compute; reflexivity).
  apply (all_below_spec 256 _ H) in Hb. apply (all_below_spec 256 _ Hb) in Hc.
  cbv zeta in Hc.
  rewrite !andb_true_iff, !Z.leb_le, !Z.ltb_lt, !Z.eqb_eq in Hc.
  cbv zeta. tauto.
Qed.

Lemma sextets_rest1 (a : Z) :
  (0 <= a < 256)%Z ->
  let v1 := Z.shiftr a 2 in
  let v2 := Z.shiftl (Z.land a 3) 4 in
  ((0 <= v1 < 64) /\ (0 <= v2 < 64) /\ Z.lor (Z.shiftl v1 2) (Z.shiftr v2 4) = a)%Z.
Proof.
  intros Ha.
  assert (H : all_below 256 (fun a =>
                let v1 := Z.shiftr a 2 in
                let v2 := Z.shiftl (Z.land a 3) 4 in
                (0 <=? v1)%Z && (v1 <? 64)%Z && (0 <=? v2)%Z && (v2 <? 64)%Z
                && (Z.lor (Z.shiftl v1 2) (Z.shiftr v2 4) =? a)%Z) = true)
    by (vm_compute; reflexivity).
  apply (all_below_spec 256 _ H) in Ha. cbv zeta in Ha.
  rewrite !andb_true_iff, !Z.leb_le, !Z.ltb_lt, !Z.eqb_eq in Ha.
  cbv zeta. tauto.
Qed.

Lemma sextets_rest2 (b : Z) :
  (0 <= b < 256)%Z ->
  let v3 := Z.shiftl (Z.land b 15) 2 in
  ((0 <= v3 < 64) /\ Z.lor (Z.shiftl (Z.shiftr b 4) 4) (Z.shiftr v3 2) = b)%Z.
Proof.
  intros Hb.
  assert (H : all_below 256 (fun b =>
                let v3 := Z.shiftl (Z.land b 15) 2 in
                (0 <=? v3)%Z && (v3 <? 64)%Z
                && (Z.lor (Z.shiftl (Z.shiftr b 4) 4) (Z.shiftr v3 2) =? b)%Z) = true)
    by (vm_compute; reflexivity).
  apply (all_below_spec 256 _ H) in Hb. cbv zeta in Hb.
  rewrite !andb_true_iff, !Z.leb_le, !Z.ltb_lt, !Z.eqb_eq in Hb.
  cbv zeta. tauto.
Qed.

(** Decoding undoes the encoding of octets. *)
Lemma base64UrlDecode_encode (bs : list Z) :
  octets bs -> base64UrlDecode (Oauth2Scheme.base64UrlEncode bs) = Some bs.
Proof.
  revert bs.
  assert (H : forall n bs, length bs <= n -> octets bs ->
                           base64UrlDecode (Oauth2Scheme.base64UrlEncode bs) = Some bs).
  { induction n as [|n IH]; intros bs Hlen Hbs.
    - destruct bs; [reflexivity | simpl in Hlen; lia].
    - destruct bs as [|a [|b [|c rest]]].
      + reflexivity.
      + apply Forall_cons in Hbs as [Ha _].
        destruct (sextets_rest1 a Ha) as (H1 & H2 & Hb1).
        rewrite base64UrlEncode_1. cbn [base64UrlDecode].
        rewrite !url_value_char by assumption. now rewrite Hb1.
      + apply Forall_cons in Hbs as [Ha Hbs]. apply Forall_cons in Hbs as [Hb _].
        destruct (sextets_first a b Ha Hb) as (H1 & H2 & Hb1 & Hlow).
        destruct (sextets_rest2 b Hb) as (H3 & Hb2).
        rewrite base64UrlEncode_2. cbn [base64UrlDecode].
        rewrite !url_value_char by assumption. now rewrite Hb1, Hlow, Hb2.
      + apply Forall_cons in Hbs as [Ha Hbs]. apply Forall_cons in Hbs as [Hb Hbs].
        apply Forall_cons in Hbs as [Hc Hrest].
        destruct (sextets_first a b Ha Hb) as (H1 & H2 & Hb1 & Hlow).
        destruct (sextets_last b c Hb Hc) as (H3 & H4 & Hb2 & Hb3).
        rewrite base64UrlEncode_cons3. cbn [base64UrlDecode].
        rewrite !url_value_char by assumption.
        rewrite IH; [|simpl in Hlen; lia|exact Hrest].
        now rewrite Hb1, Hlow, Hb2, Hb3. }
  intros bs Hbs. now apply (H (length bs)).
Qed.

Lemma digest_octets (msg : list Z) : octets (SHA256.digest msg).
Proof.
  unfold SHA256.digest, octets.
  generalize (fold_left SHA256.compress
                (SHA256.chunks 64 (length (SHA256.pad msg) / 64) (SHA256.pad msg))
                SHA256.initial).
  intros r. apply Forall_forall. intros x Hx.
  apply list_elem_of_In, in_concat in Hx as (l & Hl & Hx).
  apply in_map_iff in Hl as (word & <- & _).
  unfold SHA256.be_bytes in Hx. apply in_map_iff in Hx as (i & <- & _).
  apply Z.mod_pos_bound. lia.
Qed.

(** X22.  [#base64UrlEncode] loses nothing: the octets can be read back from
    the string it makes of them (as unpadded base64url, RFC 4648), so two
    lists of octets with the same encoding are the same list. *)
Theorem base64UrlEncode_round_trip (bs : list Z) :
  octets bs ->
  base64UrlDecode (Oauth2Scheme.base64UrlEncode bs) = Some bs /\
  forall bs', octets bs' ->
    Oauth2Scheme.base64UrlEncode bs' = Oauth2Scheme.base64UrlEncode bs -> bs' = bs.
Proof.
  intros Hbs. split; [now apply base64UrlDecode_encode|].
  intros bs' Hbs' Hsame.
  pose proof (base64UrlDecode_encode bs Hbs) as H.
  pose proof (base64UrlDecode_encode bs' Hbs') as H'.
  rewrite Hsame, H in H'. congruence.
Qed.

(** Five octets: one group of three and a rest of two. *)
Lemma base64UrlEncode_round_trip_witness :
  let bs := [251; 255; 190; 0; 62]%Z in
  octets bs /\
  Oauth2Scheme.base64UrlEncode bs = "-_--AD4" /\
  base64UrlDecode "-_--AD4" = Some bs.
Proof.
  intros bs.
  assert (Hbs : octets bs) by (repeat constructor; lia).
  split; [exact Hbs|]. split; [reflexivity|].
  exact (proj1 (base64UrlEncode_round_trip bs Hbs)).
Defined.

(** X23.  The [S256] challenge stands for the digest and for nothing else:
    two verifiers get the same challenge exactly when their SHA-256 digests
    are the same. *)
Theorem pkce_challenge_faithful (v v' : string) :
  Oauth2Scheme.pkceChallengeFromVerifier v true
  = Oauth2Scheme.pkceChallengeFromVerifier v' true
  <-> Oauth2Scheme.sha256 v = Oauth2Scheme.sha256 v'.
Proof.
  rewrite !pkce_hashed. unfold Oauth2Scheme.sha256. split.
  - intros Hsame.
    pose proof (base64UrlDecode_encode _ (digest_octets (TextEncoder_encode v))) as H.
    pose proof (base64UrlDecode_encode _ (digest_octets (TextEncoder_encode v'))) as H'.
    rewrite Hsame, H' in H. congruence.
  - now intros ->.
Qed.

(** ** [#handleCallback]: how it ends *)

(** X24.  An accepted callback that brings a usable token and runs no code
    exchange stores the token, then the refresh token if there is a usable
    one, and only then tells the outside: in popup mode it posts the
    message to the opener and closes the window (or does nothing without an
    opener) and never redirects, whatever [watchLoggedIn] says; outside
    popup mode it redirects home and returns [true] when [watchLoggedIn] is
    on.  No request is sent. *)
Theorem handleCallback_completion (this : Scheme) (w : World) :
  handles_callback this = true ->
  state_accepted this w = true ->
  exchanges_code this = false ->
  usable (callback_token this) = true ->
  let w' := snd (Oauth2Scheme.handleCallback this w) in
  fst (Oauth2Scheme.handleCallback this w) = Returned (snd (completion this)) /\
  trace w'
  = trace w ++ [EvTokenSet (callback_token this)]
    ++ (if usable (callback_refresh_token this)
        then [EvRefreshTokenSet (callback_refresh_token this)] else [])
    ++ fst (completion this).
Proof.
  intros Hcb Hacc Hex Huse.
  destruct (handles_callback_guards this Hcb) as [Hroute Hserver].
  unfold state_accepted in Hacc. apply negb_true_iff in Hacc.
  unfold Oauth2Scheme.handleCallback. rewrite Hroute, Hserver.
  unfold getUniversal, setUniversal, auth_request, Token_set, RefreshToken_set, auth_redirect.
  run.
  fold (state_key this) (parsedQuery this). fold (callback_param this "state").
  rewrite Hacc. simpl.
  fold (callback_param this "code").
  change (strict_eq (responseType (options this)) (JStr "code")
          && truthy (callback_param this "code")) with (exchanges_code this).
  rewrite Hex. simpl.
  fold (callback_param this (token_property (options this))). fold (callback_token this).
  rewrite (usable_inv _ Huse).
  fold (callback_param this (refreshToken_property (options this))).
  fold (callback_refresh_token this).
  change (truthy (callback_refresh_token this)
          && truthy (js_length (callback_refresh_token this)))
    with (usable (callback_refresh_token this)).
  unfold completion.
  destruct (usable (callback_refresh_token this)),
    (truthy (clientWindow (options this))),
    (window_opener (platform this)), (watchLoggedIn (auth_options this)); simpl;
    rewrite <- ?app_assoc; simpl.
  all: split; reflexivity.
Qed.

(** The callback page in popup mode, opened without an opener, with
    [watchLoggedIn] on: both tokens are stored and nothing else happens. *)
Lemma handleCallback_completion_witness :
  let this := Demo.scheme (Demo.with_clientWindow (JBool true) Demo.DEFAULTS)
                (HttpOk Demo.token_response) ∅ "#access_token=T0&refresh_token=R0" in
  let w := Demo.world 0 Demo.no_token Demo.no_token ∅ RefNull in
  let w' := snd (Oauth2Scheme.handleCallback this w) in
  handles_callback this = true /\
  state_accepted this w = true /\
  exchanges_code this = false /\
  usable (callback_token this) = true /\
  watchLoggedIn (auth_options this) = true /\
  fst (Oauth2Scheme.handleCallback this w) = Returned JUndefined /\
  trace w' = [EvTokenSet (JStr "T0"); EvRefreshTokenSet (JStr "R0")].
Proof.
  intros this w w'.
  assert (H2 : state_accepted this w = true) by (vm_compute; reflexivity).
  assert (H3 : exchanges_code this = false) by (vm_compute; reflexivity).
  assert (H4 : usable (callback_token this) = true) by (vm_compute; reflexivity).
  destruct (handleCallback_completion this w eq_refl H2 H3 H4) as [Ho Ht].
  do 5 (split; [assumption || reflexivity|]).
  split; [exact Ho|]. fold w' in Ht. rewrite Ht. vm_compute. reflexivity.
Defined.

(** X25.  An accepted callback without a usable token is dropped in
    silence.  When the state check passes, no code exchange runs and the
    merged parameters hold no token (none, or an empty one),
    [#handleCallback] returns [undefined], writes neither store, sends
    nothing, tells nobody, and has consumed the stored state all the
    same. *)
Theorem handleCallback_without_token (this : Scheme) (w : World) :
  handles_callback this = true ->
  state_accepted this w = true ->
  exchanges_code this = false ->
  usable (callback_token this) = false ->
  Oauth2Scheme.handleCallback this w
  = (Returned JUndefined, with_storage (delete (state_key this)) w).
Proof.
  intros Hcb Hacc Hex Huse.
  destruct (handles_callback_guards this Hcb) as [Hroute Hserver].
  unfold state_accepted in Hacc. apply negb_true_iff in Hacc.
  unfold Oauth2Scheme.handleCallback. rewrite Hroute, Hserver.
  unfold getUniversal, setUniversal. run.
  fold (state_key this) (parsedQuery this). fold (callback_param this "state").
  rewrite Hacc. simpl.
  fold (callback_param this "code").
  change (strict_eq (responseType (options this)) (JStr "code")
          && truthy (callback_param this "code")) with (exchanges_code this).
  rewrite Hex. simpl.
  fold (callback_param this (token_property (options this))). fold (callback_token this).
  rewrite (unusable_inv _ Huse). reflexivity.
Qed.

(** The callback page is opened with the right state and an empty token. *)
Lemma handleCallback_without_token_witness :
  let this := Demo.scheme Demo.DEFAULTS (HttpOk Demo.token_response)
                ∅ "#access_token=&state=xyz" in
  let w := Demo.world 0 (Demo.token_until "T" 50) Demo.no_token
             {[ "oauth2.state" := JStr "xyz" ]} RefNull in
  handles_callback this = true /\
  state_accepted this w = true /\
  exchanges_code this = false /\
  usable (callback_token this) = false /\
  Oauth2Scheme.handleCallback this w
  = (Returned JUndefined, with_storage (delete (state_key this)) w).
Proof.
  intros this w.
  assert (H2 : state_accepted this w = true) by (vm_compute; reflexivity).
  assert (H3 : exchanges_code this = false) by (vm_compute; reflexivity).
  assert (H4 : usable (callback_token this) = false) by (vm_compute; reflexivity).
  do 4 (split; [assumption || reflexivity|]).
  exact (handleCallback_without_token this w eq_refl H2 H3 H4).
Defined.
